(** * cotahist_dashboard: price and volume dashboard (app_preco_volume.py)

    A shallow embedding of the three read queries, the title formatter and
    the chart construction of [app_preco_volume.py], and the properties of
    the specification that concern them.

    Modelling conventions.
    - The relational store is an explicit [store]: the rows of table
      [cotahist_hist], whether the engine can be reached, and the list of
      statements sent so far.  Every function that calls [pd.read_sql] is a
      computation in the monad [M] over that store.
    - A statement is the pair of its SQL text and its bound parameters, as
      [pd.read_sql(sql, engine, params=...)] hands them to the driver.  The
      meaning of each of the three statements is given by a list function
      (WHERE is [filter], GROUP BY collects the distinct keys, ORDER BY is
      a sort, AVG and SUM fold over a group), following PostgreSQL.
    - [data_operacao] is a DATE column and [codneg], [preco_fechamento] and
      [volume] are not null, as in the data model of the specification.
    - The [st.cache_data] wrappers are not modelled: every definition below
      is the body of the decorated function, that is, a call that the
      memoisation does not answer.
    - The sidebar widgets are modelled by the values they return, and the
      plotting calls by the figure they build.  Of what the browser draws
      from that figure only the lower end of the range of a y axis is
      modelled, after Plotly's rule for the range mode of the axis.
    - Numbers are the exact values the server computes.  The data frame
      holds them as float64, which is the same number for an integer up to
      2^53 and keeps sign and order; statements about values say so where
      they need it.
    - A bucket start is represented by its calendar date in the time zone
      of the session. *)

From Stdlib Require Import ZArith Ascii String QArith Qcanon.
From stdpp Require Import base decidable option list strings pretty sorting numbers gmap.

Local Open Scope Z_scope.

(* ================================================================== *)
(** * Dates *)

(** [datetime.date] and the date part of [pd.Timestamp]: the attributes
    [year], [month] and [day] that the program reads. *)
Record date := mkdate { year : Z; month : Z; day : Z }.

Global Instance date_eq_dec : EqDecision date.
Proof. solve_decision. Defined.

(** Dates compare as the triples (year, month, day). *)
Definition date_lt (a b : date) : Prop :=
  year a < year b ∨
  (year a = year b ∧ (month a < month b ∨ (month a = month b ∧ day a < day b))).

Definition date_le (a b : date) : Prop := ¬ date_lt b a.

Global Instance date_lt_dec : RelDecision date_lt.
Proof. intros a b. unfold date_lt. apply _. Defined.

Global Instance date_le_dec : RelDecision date_le.
Proof. intros a b. unfold date_le. apply _. Defined.

(** A date of the calendar, as far as the program looks at it. *)
Definition valid_month (d : date) : Prop := 1 ≤ month d ≤ 12.

(** PostgreSQL's day number of a calendar date and its inverse
    ([date2j] and [j2date] of the server's datetime code), with C's
    truncating division. *)
Definition date2j (d : date) : Z :=
  let '(m, y) :=
    if decide (2 < month d) then (month d + 1, year d + 4800)
    else (month d + 13, year d + 4799) in
  let century := y ÷ 100 in
  y * 365 - 32167 + (y ÷ 4 - century + century ÷ 4) + (7834 * m) ÷ 256 + day d.

Definition j2date (jd : Z) : date :=
  let julian := jd + 32044 in
  let quad := julian ÷ 146097 in
  let extra := (julian - quad * 146097) * 4 + 3 in
  let julian := julian + 60 + quad * 3 + extra ÷ 146097 in
  let quad := julian ÷ 1461 in
  let julian := julian - quad * 1461 in
  let y := (julian * 4) ÷ 1461 in
  let julian :=
    (if decide (y ≠ 0) then Z.rem (julian + 305) 365
     else Z.rem (julian + 306) 366) + 123 in
  let y := y + quad * 4 in
  let quad := (julian * 2141) ÷ 65536 in
  {| year := y - 4800;
     month := Z.rem (quad + 10) 12 + 1;
     day := julian - (7834 * quad) ÷ 256 |}.

(* ================================================================== *)
(** * DATE_TRUNC *)

(** The units [date_trunc] can cut a date at. *)
Inductive dt_unit := Minute | Hour | Day | Week | Month | Year.

Global Instance dt_unit_eq_dec : EqDecision dt_unit.
Proof. solve_decision. Defined.

Definition downcase_ascii (c : ascii) : ascii :=
  let n := N_of_ascii c in
  if decide (65 ≤ n ≤ 90)%N then ascii_of_N (n + 32) else c.

Fixpoint downcase (s : string) : string :=
  match s with
  | EmptyString => EmptyString
  | String c s => String (downcase_ascii c) (downcase s)
  end.

(** The unit names PostgreSQL decodes (table [deltatktbl] of the server's
    [utils/adt/datetime.c], looked up by [DecodeUnits]; the same names
    serve in interval literals, where [1 m] is one minute), restricted to
    the units above.  The one letter names are the ones the program relies
    on: [d] is a day, [w] a week, and [m] is a minute; a month is [mon] or
    [month]. *)
Definition deltatktbl : list (string * dt_unit) :=
  [ ("d", Day); ("day", Day); ("days", Day);
    ("h", Hour); ("hour", Hour); ("hours", Hour); ("hr", Hour); ("hrs", Hour);
    ("m", Minute); ("min", Minute); ("mins", Minute);
    ("minute", Minute); ("minutes", Minute);
    ("mon", Month); ("mons", Month); ("month", Month); ("months", Month);
    ("w", Week); ("week", Week); ("weeks", Week);
    ("y", Year); ("year", Year); ("years", Year); ("yr", Year); ("yrs", Year) ]%string.

(** [date_trunc] folds its first argument to lower case before the lookup. *)
Definition DecodeUnits (field : string) : option dt_unit :=
  (λ r, r.2.2) <$> list_find (λ e, e.1 = downcase field) deltatktbl.

(** [DATE_TRUNC(unit, d)] for a DATE [d].  The date is cast to a timestamp
    at midnight, so cutting at a minute, an hour or a day leaves it as it
    is; a week is cut at its Monday (day numbers divisible by 7 are
    Mondays), a month at its first day, a year at 1 January.  The result is
    a timestamp at midnight and is represented by its date. *)
Definition date_trunc (u : dt_unit) (d : date) : date :=
  match u with
  | Minute | Hour | Day => d
  | Week => let j := date2j d in j2date (j - j `mod` 7)
  | Month => {| year := year d; month := month d; day := 1 |}
  | Year => {| year := year d; month := 1; day := 1 |}
  end.


(* ================================================================== *)
(** * The data store *)

(** A row of table [cotahist_hist], with the four columns the program
    reads. *)
Record row := mkrow {
  codneg : string;
  data_operacao : date;
  preco_fechamento : Qc;
  volume : Z
}.

(** A value bound to a named parameter of a statement. *)
Inductive param :=
  | PStr (s : string)
  | PDate (d : date).

(** A statement as it reaches the driver: SQL text and bound values. *)
Record statement := mkstatement {
  sql_text : string;
  sql_params : list (string * param)
}.

(** The exceptions the modelled code can raise.  [OperationalError] and
    [ProgrammingError] are the driver's (the engine is unreachable; the
    server rejects the statement); the others are Python's own. *)
Inductive exn :=
  | OperationalError
  | ProgrammingError
  | KeyError (key : string)
  | IndexError
  | TypeError
  | ValueError.

Global Instance exn_eq_dec : EqDecision exn.
Proof. solve_decision. Defined.

Record store := mkstore {
  reachable : bool;
  cotahist_hist : list row;
  issued : list statement
}.

(** The outcome of a step that may raise. *)
Definition result (A : Type) : Type := (exn + A)%type.

Global Instance result_ret : MRet result := λ A a, inr a.

Global Instance result_bind : MBind result := λ A B k r,
  match r with
  | inl e => inl e
  | inr a => k a
  end.

(** Computations over the store that may raise. *)
Definition M (A : Type) : Type := store → result A * store.

Global Instance M_ret : MRet M := λ A a s, (inr a, s).

Global Instance M_bind : MBind M := λ A B k m s,
  match m s with
  | (inl e, s') => (inl e, s')
  | (inr a, s') => k a s'
  end.

(** A pure step that may raise, run inside [M]. *)
Definition lift {A} (r : result A) : M A := λ s, (r, s).

(** The store after a statement was sent to it: reads change no row. *)
Definition send (q : statement) (s : store) : store :=
  {| reachable := reachable s;
     cotahist_hist := cotahist_hist s;
     issued := issued s ++ [q] |}.

(** [pd.read_sql(sql, engine, params=...)]: when the engine is reachable
    the statement is sent and the rows the server computes for it come
    back (or the server's error); otherwise the connection fails and
    nothing is sent. *)
Definition read_sql {A} (q : statement) (answer : list row → result A) : M A :=
  λ s, if reachable s
       then (answer (cotahist_hist s), send q s)
       else (inl OperationalError, s).

(* ================================================================== *)
(** * Catalog query: lista_tickers *)

Definition is_upper (c : ascii) : bool := bool_decide (65 ≤ N_of_ascii c ≤ 90)%N.

Definition is_digit (c : ascii) : bool := bool_decide (48 ≤ N_of_ascii c ≤ 57)%N.

(** [n] leading characters of class [p]: the text matched and the rest. *)
Fixpoint take_class (p : ascii → bool) (n : nat) (s : string) : option (string * string) :=
  match n, s with
  | O, _ => Some (EmptyString, s)
  | S n, String c s' =>
      if p c then r ← take_class p n s'; Some (String c r.1, r.2) else None
  | S _, EmptyString => None
  end.

(** [codneg ~ '^[A-Z]{4}\d']: four capitals and a digit at the start. *)
Definition matches_ticker (s : string) : bool :=
  match take_class is_upper 4 s ≫= (λ r, take_class is_digit 1 r.2) with
  | Some _ => true
  | None => false
  end.

(** [(REGEXP_MATCH(codneg, '^([A-Z]{4}\d{1})'))[1]]: the text of the
    first group, or NULL when the pattern does not match. *)
Definition regexp_match_ticker (s : string) : option string :=
  a ← take_class is_upper 4 s;
  d ← take_class is_digit 1 a.2;
  Some (a.1 +:+ d.1).

(** ORDER BY on a nullable text column: ascending, by character code,
    NULL last. *)
Definition ticker_le (a b : option string) : Prop :=
  match a, b with
  | Some x, Some y => String.le x y
  | _, None => True
  | None, Some _ => False
  end.

Global Instance ticker_le_dec : RelDecision ticker_le.
Proof. intros [x|] [y|]; simpl; apply _. Defined.

Definition lista_tickers_sql : string := "
        SELECT DISTINCT 
            -- Extrai apenas a parte principal do ticker (ex: PETR4 de PETR4F)
            (REGEXP_MATCH(codneg, '^([A-Z]{4}\d{1})'))[1] AS ticker_clean
        FROM cotahist_hist 
        -- Filtra apenas tickers que começam com 4 letras e 1 dígito
        WHERE codneg ~ '^[A-Z]{4}\d'  
        ORDER BY ticker_clean
    ".

(** What the server answers to [lista_tickers_sql]: column
    [ticker_clean]. *)
Definition select_tickers (rows : list row) : list (option string) :=
  merge_sort ticker_le
    (remove_dups
       ((λ r, regexp_match_ticker (codneg r)) <$>
          filter (λ r, matches_ticker (codneg r) = true) rows)).

(** [Series.dropna()]. *)
Definition dropna {A} (col : list (option A)) : list A := omap id col.

(** [Series.unique()]: the values in order of first appearance. *)
Fixpoint unique_from `{EqDecision A} (seen l : list A) : list A :=
  match l with
  | [] => []
  | x :: l =>
      if decide (x ∈ seen) then unique_from seen l
      else x :: unique_from (x :: seen) l
  end.

Definition unique `{EqDecision A} (l : list A) : list A := unique_from [] l.

Definition lista_tickers : M (list string) :=
  let sql := lista_tickers_sql in
  df ← read_sql {| sql_text := sql; sql_params := [] |}
                (λ rows, inr (select_tickers rows));
  mret (unique (dropna df)).

(* ================================================================== *)
(** * Catalog query: get_date_bounds *)

(** MIN and MAX over a DATE column: NULL over no rows. *)
Definition sql_min (l : list date) : option date :=
  foldr (λ d acc, match acc with
                  | None => Some d
                  | Some m => Some (if decide (date_le d m) then d else m)
                  end) None l.

Definition sql_max (l : list date) : option date :=
  foldr (λ d acc, match acc with
                  | None => Some d
                  | Some m => Some (if decide (date_le m d) then d else m)
                  end) None l.

Definition get_date_bounds_sql : string :=
  "SELECT MIN(data_operacao) AS min, MAX(data_operacao) AS max FROM cotahist_hist".

(** An aggregate without GROUP BY answers exactly one row. *)
Definition select_bounds (rows : list row) : list (option date * option date) :=
  [ (sql_min (data_operacao <$> rows), sql_max (data_operacao <$> rows)) ].

(** [df.iloc[i]] for a position that is not negative. *)
Definition iloc {A} (df : list A) (i : nat) : result A :=
  match df !! i with
  | Some r => inr r
  | None => inl IndexError
  end.

Definition get_date_bounds : M (option date * option date) :=
  df ← read_sql {| sql_text := get_date_bounds_sql; sql_params := [] |}
                (λ rows, inr (select_bounds rows));
  result ← lift (iloc df 0);
  mret (result.1, result.2).

(* ================================================================== *)
(** * Series query: load_data *)

(** The f-string of [load_data]: [freq] is written into the text, the
    ticker and the two dates are the placeholders [:t], [:ini], [:fim]. *)
Definition load_data_sql (freq : string) : string :=
  "
        SELECT 
            DATE_TRUNC('" +:+ freq +:+ "', data_operacao) AS data_agregada,
            AVG(preco_fechamento) AS preco,
            SUM(volume) AS volume
        FROM cotahist_hist
        WHERE codneg = :t
          AND data_operacao BETWEEN :ini AND :fim
        GROUP BY data_agregada
        ORDER BY data_agregada
    ".

(** A row of the data frame [load_data] returns, after the renaming of
    [data_agregada] to [data_operacao], with the numbers as the server
    computes them. *)
Record ponto := mkponto {
  df_data_operacao : date;
  df_preco : Qc;
  df_volume : Z
}.

(** The value bound to a placeholder. *)
Definition bound (name : string) (ps : list (string * param)) : option param :=
  (λ r, r.2.2) <$> list_find (λ p, p.1 = name) ps.

Definition SUM (l : list Z) : Z := foldr Z.add 0 l.

Definition AVG (l : list Qc) : Qc :=
  (foldr Qcplus 0 l / Qc_of_Z (Z.of_nat (length l)))%Qc.

(** WHERE codneg = :t AND data_operacao BETWEEN :ini AND :fim *)
Definition in_window (t : string) (ini fim : date) (r : row) : Prop :=
  codneg r = t ∧ date_le ini (data_operacao r) ∧ date_le (data_operacao r) fim.

Global Instance in_window_dec t ini fim r : Decision (in_window t ini fim r).
Proof. unfold in_window. apply _. Defined.

(** One output row per group: the key, the mean price and the summed
    volume of the rows of [hits] that have the key. *)
Definition aggregate (u : dt_unit) (hits : list row) (k : date) : ponto :=
  let g := filter (λ r, date_trunc u (data_operacao r) = k) hits in
  {| df_data_operacao := k;
     df_preco := AVG (preco_fechamento <$> g);
     df_volume := SUM (volume <$> g) |}.

(** What the server answers to [load_data_sql freq] with the bound
    values [ps].  GROUP BY and ORDER BY name the output column
    [data_agregada], the truncated date.  A [freq] the server does not
    know as a unit is an error of the statement; so is, here, a [freq]
    that would close the quoted literal and change the statement itself. *)
Definition select_series (freq : string) (ps : list (string * param))
    (rows : list row) : result (list ponto) :=
  match DecodeUnits freq, bound "t" ps, bound "ini" ps, bound "fim" ps with
  | Some u, Some (PStr t), Some (PDate ini), Some (PDate fim) =>
      let hits := filter (in_window t ini fim) rows in
      let keys :=
        merge_sort date_le
          (remove_dups ((λ r, date_trunc u (data_operacao r)) <$> hits)) in
      inr (aggregate u hits <$> keys)
  | _, _, _, _ => inl ProgrammingError
  end.

(** The last line renames column [data_agregada] to [data_operacao]: it is
    field [df_data_operacao] of [ponto]. *)
Definition load_data (t : string) (ini fim : date) (freq : string) : M (list ponto) :=
  let sql := load_data_sql freq in
  let params := [("t", PStr t); ("ini", PDate ini); ("fim", PDate fim)]%string in
  df ← read_sql {| sql_text := sql; sql_params := params |}
                (select_series freq params);
  mret df.

(* ================================================================== *)
(** * Title dates: formatar_data_ptbr *)

Definition meses : list string :=
  [ "Janeiro"; "Fevereiro"; "Março"; "Abril"; "Maio"; "Junho";
    "Julho"; "Agosto"; "Setembro"; "Outubro"; "Novembro"; "Dezembro" ]%string.

(** [l[i]] of a Python list: a negative index counts from the end, an
    index out of range raises. *)
Definition py_index {A} (l : list A) (i : Z) : result A :=
  let n := Z.of_nat (length l) in
  let j := if decide (i < 0) then i + n else i in
  if decide (0 ≤ j) then
    match l !! Z.to_nat j with
    | Some x => inr x
    | None => inl IndexError
    end
  else inl IndexError.

Definition formatar_data_ptbr (dt : date) : result string :=
  mes ← py_index meses (month dt - 1);
  mret (pretty (day dt) +:+ ", " +:+ mes +:+ ", " +:+ pretty (year dt)).

(* ================================================================== *)
(** * Chart construction *)

(** The two graph objects the program creates, with the properties it
    sets on them. *)
Inductive trace :=
  | Scattergl (x : list date) (y : list Qc) (name : string) (line_color : string)
  | Bar (x : list date) (y : list Z) (name : string) (marker_color : string)
        (opacity : Qc) (visible : string).

Record axis := mkaxis {
  axis_title : option string;
  rangemode : option string
}.

Record legend := mklegend {
  orientation : string;
  yanchor : string;
  legend_y : Qc
}.

Record layout := mklayout {
  title : option string;
  xaxis : axis;
  yaxis : axis;
  yaxis2 : option axis;
  layout_legend : option legend;
  template : option string;
  height : option Z
}.

(** A figure: its traces, each with the flag that places it on the
    secondary y axis, and its layout. *)
Record figure := mkfigure {
  data : list (trace * bool);
  fig_layout : layout
}.

Definition no_axis : axis := {| axis_title := None; rangemode := None |}.

(** [make_subplots(specs=[[{"secondary_y": secondary_y}]])] *)
Definition make_subplots (secondary_y : bool) : figure :=
  {| data := [];
     fig_layout :=
       {| title := None; xaxis := no_axis; yaxis := no_axis;
          yaxis2 := if secondary_y then Some no_axis else None;
          layout_legend := None; template := None; height := None |} |}.

(** [fig.add_trace(tr, secondary_y=...)]: a trace can go on the secondary
    axis only when the subplot was made with one. *)
Definition add_trace (fig : figure) (tr : trace) (secondary_y : bool) : result figure :=
  match secondary_y, yaxis2 (fig_layout fig) with
  | true, None => inl ValueError
  | _, _ => inr {| data := data fig ++ [(tr, secondary_y)];
                   fig_layout := fig_layout fig |}
  end.

Definition set_title (t : string) (a : axis) : axis :=
  {| axis_title := Some t; rangemode := rangemode a |}.

(** [fig.update_layout(title=, xaxis_title=, yaxis_title=, yaxis2_title=,
    legend=, template=, height=)] *)
Definition update_layout (fig : figure) (title_ xaxis_title yaxis_title yaxis2_title : string)
    (legend_ : legend) (template_ : string) (height_ : Z) : figure :=
  let l := fig_layout fig in
  {| data := data fig;
     fig_layout :=
       {| title := Some title_;
          xaxis := set_title xaxis_title (xaxis l);
          yaxis := set_title yaxis_title (yaxis l);
          yaxis2 := Some (set_title yaxis2_title (default no_axis (yaxis2 l)));
          layout_legend := Some legend_;
          template := Some template_;
          height := Some height_ |} |}.

(** [fig.update_yaxes(rangemode=, secondary_y=True)]: only the secondary
    y axis is updated. *)
Definition update_yaxes_secondary (fig : figure) (rangemode_ : string) : figure :=
  let l := fig_layout fig in
  {| data := data fig;
     fig_layout :=
       {| title := title l; xaxis := xaxis l; yaxis := yaxis l;
          yaxis2 := (λ a, {| axis_title := axis_title a;
                             rangemode := Some rangemode_ |}) <$> yaxis2 l;
          layout_legend := layout_legend l;
          template := template l; height := height l |} |}.

(** The block [with chart_placeholder.container():] up to the figure that
    is handed to [st.plotly_chart]: title, the two traces, the layout and
    the range mode of the volume axis. *)
Definition build_chart (df : list ponto) (ticker freq : string)
    (data_ini data_fim : date) : result figure :=
  ini_fmt ← formatar_data_ptbr data_ini;
  fim_fmt ← formatar_data_ptbr data_fim;
  let titulo_formatado :=
    ticker +:+ " | " +:+ freq +:+ " | " +:+ ini_fmt +:+ " - " +:+ fim_fmt in
  let fig := make_subplots true in
  fig ← add_trace fig
          (Scattergl (df_data_operacao <$> df) (df_preco <$> df)
                     "Preço (R$)" "#1f77b4")
          false;
  fig ← add_trace fig
          (Bar (df_data_operacao <$> df) (df_volume <$> df)
               "Volume" "lightgray" (Q2Qc (4 # 10)) "legendonly")
          true;
  let fig :=
    update_layout fig titulo_formatado "Data" "Preço (R$)" "Volume"
      {| orientation := "h"; yanchor := "bottom"; legend_y := Q2Qc (102 # 100) |}
      "plotly_white" 600 in
  let fig := update_yaxes_secondary fig "tozero" in
  mret fig.

(* ================================================================== *)
(** * The range of a y axis *)






(* ================================================================== *)
(** * The page *)

(** What a run reads from its host: the clock ([pd.Timestamp.now()]) and
    the locale settings of the process. *)
Record env := mkenv {
  now : date;
  host_locale : string
}.

(** What the sidebar widgets return: the ticker of the select box, the
    label of the radio button, the two dates of the date input. *)
Record widgets := mkwidgets {
  ticker : string;
  freq : string;
  data_ini : date;
  data_fim : date
}.

(** The options of the radio button. *)
Definition freq_options : list string := ["Diária"; "Semanal"; "Mensal"]%string.

Definition freq_map : gmap string string :=
  {[ "Diária" := "D"; "Semanal" := "W"; "Mensal" := "M" ]}%string.

(** [d[k]] of a Python dict. *)
Definition py_getitem (d : gmap string string) (k : string) : result string :=
  match d !! k with
  | Some v => inr v
  | None => inl (KeyError k)
  end.

(** [max_date - pd.DateOffset(months=6)], the default of the date input,
    as far as it can raise: a null [max_date] has no such difference.  The
    checks the date input itself makes on its default are left out, so the
    model may complete a run that the page does not. *)
Definition default_period (max_date : option date) : result unit :=
  match max_date with
  | Some _ => inr ()
  | None => inl TypeError
  end.

(** What a run puts on the page. *)
Record page := mkpage {
  chart : figure;
  toast : string;
  caption : string
}.

(** The part of a run after the data frame is loaded: the toast with the
    number of rows, the chart, and the footer with the date of the run. *)
Definition render (e : env) (w : widgets) (df : list ponto) : result page :=
  let toast_ := "✅ " +:+ pretty (length df) +:+ " registros carregados" in
  fig ← build_chart df (ticker w) (freq w) (data_ini w) (data_fim w);
  atualizacao_formatada ← formatar_data_ptbr (now e);
  mret {| chart := fig;
          toast := toast_;
          caption := "Fonte: Banco de dados | Atualizado em " +:+ atualizacao_formatada |}.

(** One run of the script, top to bottom. *)
Definition app (e : env) (w : widgets) : M page :=
  bounds ← get_date_bounds;
  tickers ← lista_tickers;
  _ ← lift (default_period bounds.2);
  df ← (f ← lift (py_getitem freq_map (freq w));
        load_data (ticker w) (data_ini w) (data_fim w) f);
  lift (render e w df).

(* ================================================================== *)
(** * The select box of the ticker *)

(** [l.index(x)] of a Python list: the position of the first [x], and
    [ValueError] when [x] is not in the list. *)
Fixpoint py_list_index (l : list string) (x : string) : result nat :=
  match l with
  | [] => inl ValueError
  | y :: l => if decide (y = x) then inr O else i ← py_list_index l x; mret (S i)
  end.

(** The argument [index=] of the select box:
    [tickers.index("PETR4") if "PETR4" in tickers else 0]. *)
Definition ativo_index (tickers : list string) : result nat :=
  if decide ("PETR4"%string ∈ tickers) then py_list_index tickers "PETR4"
  else inr O.

(* ================================================================== *)
(** * Definitions that follow the specification *)

(** Following the specification: [x] is the base symbol of the raw code
    [code], its first five characters, four capitals and a digit. *)
Definition ticker_prefix (x code : string) : Prop :=
  ∃ a1 a2 a3 a4 d rest,
    code = String a1 (String a2 (String a3 (String a4 (String d rest)))) ∧
    x = String a1 (String a2 (String a3 (String a4 (String d EmptyString)))) ∧
    is_upper a1 = true ∧ is_upper a2 = true ∧ is_upper a3 = true ∧
    is_upper a4 = true ∧ is_digit d = true.

(** The three granularities of the specification.  The radio button shows
    them as [Diária], [Semanal] and [Mensal]. *)
Inductive granularity := Daily | Weekly | Monthly.

Definition granularity_label (g : granularity) : string :=
  match g with
  | Daily => "Diária"
  | Weekly => "Semanal"
  | Monthly => "Mensal"
  end.

(** Following the specification: a date truncated to the boundary of its
    granularity, that is the day itself, the Monday of its week, the first
    day of its month. *)
Definition bucket_start (g : granularity) (d : date) : date :=
  match g with
  | Daily => d
  | Weekly => let j := date2j d in j2date (j - j `mod` 7)
  | Monthly => {| year := year d; month := month d; day := 1 |}
  end.

(** Following the specification: the observations of ticker [t] in the
    inclusive window, grouped by [bucket_start g], with the mean price and
    the summed volume of each bucket, ascending by bucket start. *)
Definition spec_series (g : granularity) (t : string) (ini fim : date)
    (rows : list row) : list ponto :=
  let hits := filter (in_window t ini fim) rows in
  let starts :=
    merge_sort date_le
      (remove_dups ((λ r, bucket_start g (data_operacao r)) <$> hits)) in
  (λ k, let g := filter (λ r, bucket_start g (data_operacao r) = k) hits in
        {| df_data_operacao := k;
           df_preco := AVG (preco_fechamento <$> g);
           df_volume := SUM (volume <$> g) |}) <$> starts.

(* ================================================================== *)
(** * Closed forms used in the statements *)

(** The figure [build_chart] arrives at for a series and a title. *)
Definition chart_of (df : list ponto) (titulo : string) : figure :=
  {| data :=
       [ (Scattergl (df_data_operacao <$> df) (df_preco <$> df)
                    "Preço (R$)" "#1f77b4", false);
         (Bar (df_data_operacao <$> df) (df_volume <$> df)
              "Volume" "lightgray" (Q2Qc (4 # 10)) "legendonly", true) ];
     fig_layout :=
       {| title := Some titulo;
          xaxis := {| axis_title := Some "Data"; rangemode := None |};
          yaxis := {| axis_title := Some "Preço (R$)"; rangemode := None |};
          yaxis2 := Some {| axis_title := Some "Volume"; rangemode := Some "tozero" |};
          layout_legend :=
            Some {| orientation := "h"; yanchor := "bottom";
                    legend_y := Q2Qc (102 # 100) |};
          template := Some "plotly_white";
          height := Some 600 |} |}.

(** The series statement of a run whose unit string is [f]. *)
Definition series_statement (w : widgets) (f : string) : statement :=
  {| sql_text := load_data_sql f;
     sql_params := [("t", PStr (ticker w)); ("ini", PDate (data_ini w));
                    ("fim", PDate (data_fim w))]%string |}.

(** The store after the two catalog statements of a run. *)
Definition catalog_sent (s : store) : store :=
  send {| sql_text := lista_tickers_sql; sql_params := [] |}
    (send {| sql_text := get_date_bounds_sql; sql_params := [] |} s).

(** A string without a comma in it. *)
Definition sem_virgula (s : string) : Prop :=
  Forall (λ c, c ≠ ","%char) (list_ascii_of_string s).

(* ================================================================== *)
(** * Stores and inputs used in the examples *)

Definition loja_vazia : store :=
  {| reachable := true; cotahist_hist := []; issued := [] |}.

Definition loja_petr4 : store :=
  {| reachable := true;
     cotahist_hist :=
       [ mkrow "PETR4" (mkdate 2024 1 3) (Qc_of_Z 31) 100;
         mkrow "PETR4F" (mkdate 2024 1 3) (Qc_of_Z 31) 5;
         mkrow "ITUB4" (mkdate 2024 1 2) (Qc_of_Z 27) 40;
         mkrow "PETR4" (mkdate 2024 1 2) (Qc_of_Z 30) 100 ];
     issued := [] |}.

(** A table in which the base symbol PETR4 is carried by a longer raw
    code only. *)
Definition loja_petr4f : store :=
  {| reachable := true;
     cotahist_hist := [ mkrow "PETR4F" (mkdate 2024 1 3) (Qc_of_Z 31) 5 ];
     issued := [] |}.

(** A store whose engine cannot be reached. *)
Definition loja_fora : store :=
  {| reachable := false;
     cotahist_hist := cotahist_hist loja_petr4;
     issued := [] |}.



Definition janeiro_ini : date := mkdate 2024 1 1.

Definition janeiro_fim : date := mkdate 2024 1 31.

Definition relogio : env := {| now := mkdate 2025 7 16; host_locale := "pt_BR.UTF-8" |}.

Definition relogio' : env := {| now := mkdate 2026 11 3; host_locale := "C" |}.

Definition escolha : widgets :=
  {| ticker := "PETR4"; freq := "Semanal";
     data_ini := janeiro_ini; data_fim := janeiro_fim |}.

(* ================================================================== *)
(** * The order on dates *)

Ltac date_order :=
  repeat match goal with d : date |- _ => destruct d end;
  unfold date_le, date_lt in *; simpl in *.

Global Instance date_le_refl : Reflexive date_le.
Proof. intros a. date_order. lia. Qed.

Global Instance date_le_trans : Transitive date_le.
Proof. intros a b c. date_order. lia. Qed.

Global Instance date_le_total : Total date_le.
Proof. intros a b. date_order. lia. Qed.

Global Instance date_le_antisym : AntiSymm (=) date_le.
Proof. intros a b Hab Hba. date_order. f_equal; lia. Qed.

Lemma date_le_ne_lt a b : date_le a b → a ≠ b → date_lt a b.
Proof.
  intros Hle Hne. destruct (decide (date_lt a b)) as [|Hn]; [done|].
  destruct Hne. apply (anti_symm date_le); [done|exact Hn].
Qed.

(** No date lies in a window whose end is before its start. *)
Lemma in_window_inverted t ini fim r : date_lt fim ini → ¬ in_window t ini fim r.
Proof.
  intros Hlt (_ & H1 & H2). apply (date_le_trans _ _ _ H1) in H2.
  exact (H2 Hlt).
Qed.

(* ================================================================== *)
(** * Running the queries *)

Lemma bind_inr {A B} (m : M A) (k : A → M B) s a s' :
  m s = (inr a, s') → (m ≫= k) s = k a s'.
Proof. intros H. unfold mbind, M_bind. by rewrite H. Qed.

Lemma bind_inl {A B} (m : M A) (k : A → M B) s e s' :
  m s = (inl e, s') → (m ≫= k) s = (inl e, s').
Proof. intros H. unfold mbind, M_bind. by rewrite H. Qed.

Lemma read_sql_unreachable {A} q (answer : list row → result A) s :
  reachable s = false → read_sql q answer s = (inl OperationalError, s).
Proof. intros Hr. unfold read_sql. by rewrite Hr. Qed.

Lemma app_unreachable e w s :
  reachable s = false → app e w s = (inl OperationalError, s).
Proof.
  intros Hr. unfold app. apply bind_inl.
  unfold get_date_bounds. apply bind_inl. by apply read_sql_unreachable.
Qed.

Section reachable_store.
Variable s : store.
Hypothesis Hreach : reachable s = true.

Lemma read_sql_reachable {A} q (answer : list row → result A) :
  read_sql q answer s = (answer (cotahist_hist s), send q s).
Proof. unfold read_sql. by rewrite Hreach. Qed.

(** The statement [load_data] sends and the answer it returns. *)
Lemma load_data_run t ini fim freq :
  load_data t ini fim freq s =
    (select_series freq [("t", PStr t); ("ini", PDate ini); ("fim", PDate fim)]%string
       (cotahist_hist s),
     send {| sql_text := load_data_sql freq;
             sql_params := [("t", PStr t); ("ini", PDate ini); ("fim", PDate fim)]%string |} s).
Proof.
  unfold load_data, mbind, M_bind. rewrite read_sql_reachable.
  by destruct (select_series _ _ _).
Qed.

Lemma get_date_bounds_run :
  get_date_bounds s =
    (inr (sql_min (data_operacao <$> cotahist_hist s),
          sql_max (data_operacao <$> cotahist_hist s)),
     send {| sql_text := get_date_bounds_sql; sql_params := [] |} s).
Proof. unfold get_date_bounds, mbind, M_bind. by rewrite read_sql_reachable. Qed.

Lemma lista_tickers_run :
  lista_tickers s =
    (inr (unique (dropna (select_tickers (cotahist_hist s)))),
     send {| sql_text := lista_tickers_sql; sql_params := [] |} s).
Proof. unfold lista_tickers, mbind, M_bind. by rewrite read_sql_reachable. Qed.

End reachable_store.

(** A whole run over a reachable store: the two catalog statements, then
    the default of the date input, the lookup in [freq_map], the series
    statement and the rendering. *)
Lemma app_run e w s :
  reachable s = true →
  app e w s =
    match default_period (sql_max (data_operacao <$> cotahist_hist s)) with
    | inl x => (inl x, catalog_sent s)
    | inr _ =>
        match py_getitem freq_map (freq w) with
        | inl x => (inl x, catalog_sent s)
        | inr f =>
            (select_series f (sql_params (series_statement w f)) (cotahist_hist s)
               ≫= render e w,
             send (series_statement w f) (catalog_sent s))
        end
    end.
Proof.
  intros Hr. unfold app.
  erewrite bind_inr by (by apply get_date_bounds_run).
  erewrite bind_inr by (by apply lista_tickers_run).
  simpl. destruct (default_period _) as [x|[]] eqn:Hd.
  { by apply bind_inl. }
  erewrite bind_inr by reflexivity.
  destruct (py_getitem freq_map (freq w)) as [x|f] eqn:Hf.
  { apply bind_inl. by apply bind_inl. }
  unfold mbind at 1, M_bind at 1. erewrite bind_inr by reflexivity.
  rewrite load_data_run by done. simpl.
  by destruct (select_series _ _ _).
Qed.

Lemma filter_none {A} (P : A → Prop) `{∀ x, Decision (P x)} (l : list A) :
  (∀ x, x ∈ l → ¬ P x) → filter P l = [].
Proof.
  induction l as [|x l IH]; intros Hl; [done|].
  rewrite filter_cons_False by (apply Hl; left).
  apply IH. intros y Hy. apply Hl. by right.
Qed.

(** The answer of the server once unit and bound values are resolved. *)
Lemma select_series_unit freq u t ini fim rows :
  DecodeUnits freq = Some u →
  select_series freq [("t", PStr t); ("ini", PDate ini); ("fim", PDate fim)]%string rows =
    inr (aggregate u (filter (in_window t ini fim) rows) <$>
           merge_sort date_le
             (remove_dups ((λ r, date_trunc u (data_operacao r)) <$>
                             filter (in_window t ini fim) rows))).
Proof. intros Hu. unfold select_series. by rewrite Hu. Qed.

(** ** C1 *)

(** C1, as the code has it: a call of [load_data] whose start is after its
    end raises nothing.  On a reachable store and with a unit the server
    knows, the statement is sent with the two dates bound as given, and the
    empty series comes back. *)
Theorem load_data_inverted_range s t ini fim freq u :
  reachable s = true →
  DecodeUnits freq = Some u →
  date_lt fim ini →
  load_data t ini fim freq s =
    (inr [],
     send {| sql_text := load_data_sql freq;
             sql_params := [("t", PStr t); ("ini", PDate ini); ("fim", PDate fim)]%string |} s).
Proof.
  intros Hr Hu Hlt. rewrite load_data_run by done.
  rewrite (select_series_unit _ u) by done.
  rewrite filter_none by (intros r _; by apply in_window_inverted).
  reflexivity.
Qed.

Lemma load_data_inverted_range_witness :
  load_data "PETR4" janeiro_fim janeiro_ini "W" loja_petr4 =
    (inr [],
     send {| sql_text := load_data_sql "W";
             sql_params := [("t", PStr "PETR4"); ("ini", PDate janeiro_fim);
                            ("fim", PDate janeiro_ini)]%string |} loja_petr4).
Proof.
  apply (load_data_inverted_range loja_petr4 "PETR4" janeiro_fim janeiro_ini "W" Week).
  - reflexivity.
  - reflexivity.
  - unfold date_lt; simpl; lia.
Defined.

(** C1, counterexample: with start 31 January 2024 after end 1 January
    2024 the call returns normally, with an empty series, and the series
    statement has been sent.  So it is not the case that every call with
    start after end raises and leaves the store as it was. *)
Lemma load_data_inverted_range_no_error :
  date_lt janeiro_ini janeiro_fim ∧
  (load_data "PETR4" janeiro_fim janeiro_ini "D" loja_petr4).1 = inr [] ∧
  sql_text <$> issued (load_data "PETR4" janeiro_fim janeiro_ini "D" loja_petr4).2 =
    [load_data_sql "D"] ∧
  ¬ (∀ s t ini fim freq,
       date_lt fim ini → ∃ x, load_data t ini fim freq s = (inl x, s)).
Proof.
  assert (date_lt janeiro_ini janeiro_fim) as Hlt by (unfold date_lt; simpl; lia).
  split; [done|]. split; [reflexivity|]. split; [reflexivity|].
  intros Hclaim.
  destruct (Hclaim loja_petr4 "PETR4"%string janeiro_fim janeiro_ini "D"%string Hlt)
    as [x Hx].
  apply (f_equal fst) in Hx. discriminate Hx.
Qed.

(** ** C2 *)

Lemma sql_min_spec (l : list date) :
  l ≠ [] → ∃ m, sql_min l = Some m ∧ m ∈ l ∧ ∀ d, d ∈ l → date_le m d.
Proof.
  induction l as [|x l IH]; [done|]. intros _.
  destruct l as [|y l].
  - exists x. split; [done|]. split; [left|].
    intros d ->%list_elem_of_singleton. reflexivity.
  - destruct IH as (m & Hm & Hin & Hle); [done|].
    change (sql_min (x :: y :: l)) with
      (match sql_min (y :: l) with
       | None => Some x
       | Some m => Some (if decide (date_le x m) then x else m)
       end).
    rewrite Hm. destruct (decide (date_le x m)) as [Hx|Hx].
    + exists x. split; [done|]. split; [left|].
      intros d [->|Hd]%elem_of_cons; [reflexivity|].
      etrans; [exact Hx|]. by apply Hle.
    + exists m. split; [done|]. split; [by right|].
      intros d [->|Hd]%elem_of_cons; [|by apply Hle].
      by destruct (total date_le x m).
Qed.

Lemma sql_max_spec (l : list date) :
  l ≠ [] → ∃ m, sql_max l = Some m ∧ m ∈ l ∧ ∀ d, d ∈ l → date_le d m.
Proof.
  induction l as [|x l IH]; [done|]. intros _.
  destruct l as [|y l].
  - exists x. split; [done|]. split; [left|].
    intros d ->%list_elem_of_singleton. reflexivity.
  - destruct IH as (m & Hm & Hin & Hle); [done|].
    change (sql_max (x :: y :: l)) with
      (match sql_max (y :: l) with
       | None => Some x
       | Some m => Some (if decide (date_le m x) then x else m)
       end).
    rewrite Hm. destruct (decide (date_le m x)) as [Hx|Hx].
    + exists x. split; [done|]. split; [left|].
      intros d [->|Hd]%elem_of_cons; [reflexivity|].
      etrans; [by apply Hle|exact Hx].
    + exists m. split; [done|]. split; [by right|].
      intros d [->|Hd]%elem_of_cons; [|by apply Hle].
      by destruct (total date_le m x).
Qed.

(** C2, as the code has it: on a reachable store [get_date_bounds] raises
    nothing.  Over a table without rows it returns the pair of nulls; over
    a table with rows it returns the least and the greatest trade date,
    and the first is not after the second. *)
Theorem get_date_bounds_spec s :
  reachable s = true →
  (cotahist_hist s = [] → (get_date_bounds s).1 = inr (None, None)) ∧
  (cotahist_hist s ≠ [] →
   ∃ min_date max_date,
     (get_date_bounds s).1 = inr (Some min_date, Some max_date) ∧
     date_le min_date max_date ∧
     min_date ∈ data_operacao <$> cotahist_hist s ∧
     max_date ∈ data_operacao <$> cotahist_hist s ∧
     ∀ r, r ∈ cotahist_hist s →
          date_le min_date (data_operacao r) ∧ date_le (data_operacao r) max_date).
Proof.
  intros Hr. rewrite get_date_bounds_run by done. simpl. split.
  - by intros ->.
  - intros Hne.
    assert (data_operacao <$> cotahist_hist s ≠ []) as Hne'.
    { by destruct (cotahist_hist s). }
    destruct (sql_min_spec _ Hne') as (mn & -> & Hmn & Hlo).
    destruct (sql_max_spec _ Hne') as (mx & -> & Hmx & Hhi).
    exists mn, mx. split; [done|]. split; [by apply Hhi|].
    split; [done|]. split; [done|].
    intros r Hin. split; [apply Hlo|apply Hhi]; by apply list_elem_of_fmap_2.
Qed.

Lemma get_date_bounds_spec_witness :
  (cotahist_hist loja_petr4 = [] → (get_date_bounds loja_petr4).1 = inr (None, None)) ∧
  (cotahist_hist loja_petr4 ≠ [] →
   ∃ min_date max_date,
     (get_date_bounds loja_petr4).1 = inr (Some min_date, Some max_date) ∧
     date_le min_date max_date ∧
     min_date ∈ data_operacao <$> cotahist_hist loja_petr4 ∧
     max_date ∈ data_operacao <$> cotahist_hist loja_petr4 ∧
     ∀ r, r ∈ cotahist_hist loja_petr4 →
          date_le min_date (data_operacao r) ∧ date_le (data_operacao r) max_date).
Proof. apply (get_date_bounds_spec loja_petr4). reflexivity. Defined.

(** C2, counterexample: over the table without rows the call does not
    raise; it returns the pair of nulls.  So it is not the case that the
    call raises whenever the table has no rows. *)
Lemma get_date_bounds_empty_table_no_error :
  reachable loja_vazia = true ∧
  cotahist_hist loja_vazia = [] ∧
  (get_date_bounds loja_vazia).1 = inr (None, None) ∧
  ¬ (∀ s, cotahist_hist s = [] → ∃ x, (get_date_bounds s).1 = inl x).
Proof.
  split; [reflexivity|]. split; [reflexivity|]. split; [reflexivity|].
  intros Hclaim. destruct (Hclaim loja_vazia eq_refl) as [x Hx].
  discriminate Hx.
Qed.

(** ** C4 *)

Lemma regexp_match_ticker_spec code x :
  regexp_match_ticker code = Some x ↔ ticker_prefix x code.
Proof.
  unfold regexp_match_ticker, ticker_prefix. split.
  - destruct code as [|a1 [|a2 [|a3 [|a4 [|d rest]]]]]; simpl;
      repeat (match goal with
              | |- context [if ?b then _ else _] => destruct b eqn:?
              end; simpl); try discriminate.
    intros [= <-]. by exists a1, a2, a3, a4, d, rest.
  - intros (a1 & a2 & a3 & a4 & d & rest & -> & -> & H1 & H2 & H3 & H4 & H5).
    simpl. rewrite H1. simpl. rewrite H2. simpl. rewrite H3. simpl.
    rewrite H4. simpl. by rewrite H5.
Qed.

Lemma matches_ticker_spec code :
  matches_ticker code = true ↔ is_Some (regexp_match_ticker code).
Proof.
  unfold matches_ticker, regexp_match_ticker, mbind, option_bind.
  destruct (take_class is_upper 4 code) as [a|]; [|by split; [|intros []]].
  destruct (take_class is_digit 1 a.2) as [d|].
  - split; [by eexists|done].
  - split; [done|by intros []].
Qed.

Global Instance ticker_le_total : Total ticker_le.
Proof. intros [x|] [y|]; simpl; auto. apply (total String.le). Qed.

Global Instance ticker_le_trans : Transitive ticker_le.
Proof.
  intros [x|] [y|] [z|]; simpl; try done. apply (transitivity (R:=String.le)).
Qed.

Lemma dropna_Some {A} (l : list A) : dropna (Some <$> l) = l.
Proof.
  induction l as [|x l IH]; [done|].
  change (dropna (Some <$> x :: l)) with (x :: dropna (Some <$> l)).
  by rewrite IH.
Qed.

Lemma unique_from_NoDup `{EqDecision A} (seen l : list A) :
  NoDup l → (∀ x, x ∈ l → x ∉ seen) → unique_from seen l = l.
Proof.
  revert seen. induction l as [|x l IH]; intros seen Hnd Hseen; [done|].
  apply NoDup_cons in Hnd as [Hx Hnd]. simpl.
  rewrite decide_False by (apply Hseen; left). f_equal.
  apply IH; [done|]. intros y Hy [->|Hin]%elem_of_cons; [done|].
  by apply (Hseen y); [right|].
Qed.

Lemma unique_NoDup `{EqDecision A} (l : list A) : NoDup l → unique l = l.
Proof. intros Hnd. apply unique_from_NoDup; [done|]. intros x _. apply not_elem_of_nil. Qed.

(** A list without nulls is the image of a list of values. *)
Lemma Forall_is_Some_fmap {A} (l : list (option A)) :
  Forall is_Some l → ∃ l', l = Some <$> l'.
Proof.
  induction 1 as [|x l [y ->] _ [l' ->]]; [by exists []|]. by exists (y :: l').
Qed.

Lemma StronglySorted_ticker_le (l : list string) :
  StronglySorted ticker_le (Some <$> l) → StronglySorted String.le l.
Proof.
  induction l as [|x l IH]; simpl; [constructor|].
  intros [Hall Hl]%StronglySorted_cons. constructor; [by apply IH|].
  rewrite Forall_fmap in Hall. eapply Forall_impl; [exact Hall|]. done.
Qed.

(** The answer to the catalog statement has no null in it. *)
Lemma select_tickers_not_null rows : Forall is_Some (select_tickers rows).
Proof.
  unfold select_tickers. rewrite merge_sort_Permutation.
  apply Forall_forall. intros o Ho. rewrite elem_of_remove_dups in Ho.
  apply list_elem_of_fmap in Ho as (r & -> & Hr).
  apply list_elem_of_filter in Hr as [Hm _]. by apply matches_ticker_spec.
Qed.

Lemma elem_of_select_tickers rows x :
  Some x ∈ select_tickers rows ↔ ∃ r, r ∈ rows ∧ ticker_prefix x (codneg r).
Proof.
  unfold select_tickers. rewrite merge_sort_Permutation, elem_of_remove_dups.
  rewrite list_elem_of_fmap. split.
  - intros (r & Hx & Hr). apply list_elem_of_filter in Hr as [_ Hr].
    exists r. split; [done|]. by apply regexp_match_ticker_spec.
  - intros (r & Hr & Hp). apply regexp_match_ticker_spec in Hp.
    exists r. split; [done|]. apply list_elem_of_filter. split; [|done].
    apply matches_ticker_spec. by rewrite Hp.
Qed.

(** C4: on a reachable store [lista_tickers] returns a list without
    duplicates, ascending in the order of the character codes, in which
    nothing is null (it is the answer of the server as it came), and whose
    entries are exactly the base symbols, four capitals and a digit, of the
    raw codes of the table that start with such a prefix. *)
Theorem lista_tickers_sorted_nodup s :
  reachable s = true →
  ∃ l, (lista_tickers s).1 = inr l ∧
       NoDup l ∧
       StronglySorted String.le l ∧
       Some <$> l = select_tickers (cotahist_hist s) ∧
       ∀ x, x ∈ l ↔ ∃ r, r ∈ cotahist_hist s ∧ ticker_prefix x (codneg r).
Proof.
  intros Hr. rewrite lista_tickers_run by done. simpl.
  destruct (Forall_is_Some_fmap _ (select_tickers_not_null (cotahist_hist s)))
    as [l Hl].
  assert (NoDup l) as Hnd.
  { apply (NoDup_fmap (Some : string → option string)). rewrite <- Hl.
    unfold select_tickers. rewrite merge_sort_Permutation.
    apply NoDup_remove_dups. }
  exists l. rewrite Hl, dropna_Some, unique_NoDup by done.
  split; [done|]. split; [done|]. split.
  { apply StronglySorted_ticker_le. rewrite <- Hl.
    apply (StronglySorted_merge_sort ticker_le). }
  split; [done|].
  intros x. rewrite <- elem_of_select_tickers, Hl.
  by rewrite (list_elem_of_fmap_inj (Some : string → option string)).
Qed.

Lemma lista_tickers_sorted_nodup_witness :
  ∃ l, (lista_tickers loja_petr4).1 = inr l ∧
       NoDup l ∧
       StronglySorted String.le l ∧
       Some <$> l = select_tickers (cotahist_hist loja_petr4) ∧
       ∀ x, x ∈ l ↔ ∃ r, r ∈ cotahist_hist loja_petr4 ∧ ticker_prefix x (codneg r).
Proof. apply (lista_tickers_sorted_nodup loja_petr4). reflexivity. Defined.

(** On the example table the raw codes [PETR4] and [PETR4F] collapse. *)
Example lista_tickers_loja_petr4 :
  (lista_tickers loja_petr4).1 = inr ["ITUB4"; "PETR4"]%string.
Proof. reflexivity. Qed.

(** ** C5 *)

(** C5: the text of the statement [load_data] sends is the same for any
    two calls with the same [freq], whatever their tickers and dates: these
    three values travel as the bound parameters [t], [ini] and [fim]. *)
Theorem load_data_text_independent_of_bound_values
    s1 s2 t1 t2 ini1 ini2 fim1 fim2 freq :
  reachable s1 = true →
  reachable s2 = true →
  ∃ q1 q2,
    issued (load_data t1 ini1 fim1 freq s1).2 = issued s1 ++ [q1] ∧
    issued (load_data t2 ini2 fim2 freq s2).2 = issued s2 ++ [q2] ∧
    sql_text q1 = sql_text q2 ∧
    sql_params q1 = [("t", PStr t1); ("ini", PDate ini1); ("fim", PDate fim1)]%string ∧
    sql_params q2 = [("t", PStr t2); ("ini", PDate ini2); ("fim", PDate fim2)]%string.
Proof.
  intros Hr1 Hr2. rewrite !load_data_run by done.
  eexists _, _. repeat split.
Qed.

Lemma load_data_text_independent_of_bound_values_witness :
  ∃ q1 q2,
    issued (load_data "PETR4" janeiro_ini janeiro_fim "W" loja_petr4).2 =
      issued loja_petr4 ++ [q1] ∧
    issued (load_data "x' OR '1'='1" janeiro_fim janeiro_ini "W" loja_vazia).2 =
      issued loja_vazia ++ [q2] ∧
    sql_text q1 = sql_text q2 ∧
    sql_params q1 =
      [("t", PStr "PETR4"); ("ini", PDate janeiro_ini); ("fim", PDate janeiro_fim)]%string ∧
    sql_params q2 =
      [("t", PStr "x' OR '1'='1"); ("ini", PDate janeiro_fim);
       ("fim", PDate janeiro_ini)]%string.
Proof.
  apply (load_data_text_independent_of_bound_values loja_petr4 loja_vazia);
    reflexivity.
Defined.

(** ** The title and the chart in closed form *)

Lemma formatar_data_ptbr_valid dt :
  valid_month dt →
  ∃ mes,
    meses !! Z.to_nat (month dt - 1) = Some mes ∧
    formatar_data_ptbr dt =
      inr (pretty (day dt) +:+ ", " +:+ mes +:+ ", " +:+ pretty (year dt)).
Proof.
  destruct dt as [y m d]. unfold valid_month, formatar_data_ptbr. simpl. intros Hm.
  assert (m = 1 ∨ m = 2 ∨ m = 3 ∨ m = 4 ∨ m = 5 ∨ m = 6 ∨
          m = 7 ∨ m = 8 ∨ m = 9 ∨ m = 10 ∨ m = 11 ∨ m = 12) as Hcases by lia.
  repeat (destruct Hcases as [->|Hcases]); [..|subst m];
    (eexists; split; [reflexivity|reflexivity]).
Qed.

Lemma build_chart_run df t label ini fim a b :
  formatar_data_ptbr ini = inr a →
  formatar_data_ptbr fim = inr b →
  build_chart df t label ini fim =
    inr (chart_of df (t +:+ " | " +:+ label +:+ " | " +:+ a +:+ " - " +:+ b)).
Proof. intros Ha Hb. unfold build_chart. rewrite Ha, Hb. reflexivity. Qed.

(** ** C7 *)

(** C7: when no row of the table has the ticker and a date in the window,
    [load_data] returns the empty series without raising, and the chart
    built from the empty series is a figure whose two traces have no
    points. *)
Theorem empty_series_empty_chart s t ini fim freq u label :
  reachable s = true →
  DecodeUnits freq = Some u →
  valid_month ini →
  valid_month fim →
  (∀ r, r ∈ cotahist_hist s → ¬ in_window t ini fim r) →
  (load_data t ini fim freq s).1 = inr [] ∧
  ∃ fig,
    build_chart [] t label ini fim = inr fig ∧
    data fig =
      [ (Scattergl [] [] "Preço (R$)" "#1f77b4", false);
        (Bar [] [] "Volume" "lightgray" (Q2Qc (4 # 10)) "legendonly", true) ].
Proof.
  intros Hr Hu Hini Hfim Hnone. split.
  - rewrite load_data_run by done. simpl.
    rewrite (select_series_unit _ u) by done.
    by rewrite filter_none.
  - destruct (formatar_data_ptbr_valid ini Hini) as (a & _ & Ha).
    destruct (formatar_data_ptbr_valid fim Hfim) as (b & _ & Hb).
    eexists. split; [by apply build_chart_run|]. reflexivity.
Qed.

Lemma empty_series_empty_chart_witness :
  (load_data "VALE3" janeiro_ini janeiro_fim "M" loja_petr4).1 = inr [] ∧
  ∃ fig,
    build_chart [] "VALE3" "Mensal" janeiro_ini janeiro_fim = inr fig ∧
    data fig =
      [ (Scattergl [] [] "Preço (R$)" "#1f77b4", false);
        (Bar [] [] "Volume" "lightgray" (Q2Qc (4 # 10)) "legendonly", true) ].
Proof.
  apply (empty_series_empty_chart loja_petr4 "VALE3" janeiro_ini janeiro_fim "M" Minute).
  - reflexivity.
  - reflexivity.
  - unfold valid_month; simpl; lia.
  - unfold valid_month; simpl; lia.
  - intros r Hr [Hc _]. revert Hr. unfold loja_petr4. simpl.
    rewrite !elem_of_cons, elem_of_nil.
    intros [->|[->|[->|[->|[]]]]]; discriminate Hc.
Defined.

(** ** C8 *)

(** C8: for a date whose month is one of the twelve, [formatar_data_ptbr]
    returns the day, the name at position [month - 1] of the table [meses]
    of twelve names, and the year, separated by a comma and a space; it
    reads nothing but the date and that table.  The title of the chart is
    the ticker, the label of the granularity and the two dates so
    formatted. *)
Theorem formatar_data_ptbr_title df t label ini fim :
  valid_month ini →
  valid_month fim →
  length meses = 12%nat ∧
  ∃ mes_ini mes_fim fig,
    meses !! Z.to_nat (month ini - 1) = Some mes_ini ∧
    meses !! Z.to_nat (month fim - 1) = Some mes_fim ∧
    formatar_data_ptbr ini =
      inr (pretty (day ini) +:+ ", " +:+ mes_ini +:+ ", " +:+ pretty (year ini)) ∧
    formatar_data_ptbr fim =
      inr (pretty (day fim) +:+ ", " +:+ mes_fim +:+ ", " +:+ pretty (year fim)) ∧
    build_chart df t label ini fim = inr fig ∧
    title (fig_layout fig) =
      Some (t +:+ " | " +:+ label +:+ " | " +:+
            (pretty (day ini) +:+ ", " +:+ mes_ini +:+ ", " +:+ pretty (year ini)) +:+
            " - " +:+
            (pretty (day fim) +:+ ", " +:+ mes_fim +:+ ", " +:+ pretty (year fim))).
Proof.
  intros Hini Hfim. split; [reflexivity|].
  destruct (formatar_data_ptbr_valid ini Hini) as (a & Hma & Ha).
  destruct (formatar_data_ptbr_valid fim Hfim) as (b & Hmb & Hb).
  exists a, b. eexists.
  split; [done|]. split; [done|]. split; [done|]. split; [done|].
  split; [by apply build_chart_run|]. reflexivity.
Qed.

Lemma formatar_data_ptbr_title_witness :
  formatar_data_ptbr (mkdate 2025 7 16) = inr "16, Julho, 2025"%string ∧
  ∃ fig,
    build_chart [] "PETR4" "Semanal" janeiro_ini janeiro_fim = inr fig ∧
    title (fig_layout fig) =
      Some "PETR4 | Semanal | 1, Janeiro, 2024 - 31, Janeiro, 2024"%string.
Proof.
  split; [reflexivity|].
  destruct (formatar_data_ptbr_title [] "PETR4" "Semanal" janeiro_ini janeiro_fim)
    as (_ & a & b & fig & Ha & Hb & _ & _ & Hfig & Ht).
  - unfold valid_month; simpl; lia.
  - unfold valid_month; simpl; lia.
  - exists fig. split; [exact Hfig|]. rewrite Ht.
    injection Ha as <-. injection Hb as <-. reflexivity.
Defined.

(** ** C9 *)








Lemma freq_map_options label :
  label ∈ freq_options →
  ∃ f, py_getitem freq_map label = inr f ∧ f ∈ ["D"; "W"; "M"]%string.
Proof.
  unfold freq_options. rewrite !elem_of_cons, elem_of_nil.
  intros [->|[->|[->|[]]]].
  - exists "D"%string. split; [reflexivity|]. by left.
  - exists "W"%string. split; [reflexivity|]. right. by left.
  - exists "M"%string. split; [reflexivity|]. right. right. by left.
Qed.

(** ** C10 *)

(** C10: for a label the radio button can return, [freq_map] holds one of
    the three strings [D], [W] and [M], and every statement a run of the
    page sends has one of five fixed texts: the two catalog statements and
    the series statement with [D], [W] or [M] in its DATE_TRUNC. *)
Theorem freq_from_closed_set e w s :
  freq w ∈ freq_options →
  (∃ f, py_getitem freq_map (freq w) = inr f ∧ f ∈ ["D"; "W"; "M"]%string) ∧
  ∃ new,
    issued (app e w s).2 = issued s ++ new ∧
    ∀ q, q ∈ new →
      sql_text q = get_date_bounds_sql ∨
      sql_text q = lista_tickers_sql ∨
      (sql_text q ∈ [load_data_sql "D"; load_data_sql "W"; load_data_sql "M"] ∧
       sql_params q = [("t", PStr (ticker w)); ("ini", PDate (data_ini w));
                       ("fim", PDate (data_fim w))]%string).
Proof.
  intros Hopt. destruct (freq_map_options _ Hopt) as (f & Hf & Hin).
  split; [by exists f|].
  destruct (reachable s) eqn:Hr.
  - rewrite app_run by done. rewrite Hf.
    destruct (default_period _) as [x|[]].
    + exists [ {| sql_text := get_date_bounds_sql; sql_params := [] |};
               {| sql_text := lista_tickers_sql; sql_params := [] |} ].
      split; [simpl; by rewrite <- (assoc_L (++))|].
      intros q. rewrite !elem_of_cons, elem_of_nil.
      intros [->|[->|[]]]; auto.
    + exists [ {| sql_text := get_date_bounds_sql; sql_params := [] |};
               {| sql_text := lista_tickers_sql; sql_params := [] |};
               series_statement w f ].
      split; [simpl; by rewrite <- !(assoc_L (++))|].
      intros q. rewrite !elem_of_cons, elem_of_nil.
      intros [->|[->|[->|[]]]]; auto.
      right. right. split; [|done]. simpl.
      revert Hin. rewrite !elem_of_cons, elem_of_nil.
      intros [->|[->|[->|[]]]]; [left|right; left|right; right; left]; done.
  - rewrite app_unreachable by done. exists []. split.
    + simpl. by rewrite (right_id_L [] (++)).
    + intros q Hq. by apply elem_of_nil in Hq.
Qed.

Lemma freq_from_closed_set_witness :
  (∃ f, py_getitem freq_map (freq escolha) = inr f ∧ f ∈ ["D"; "W"; "M"]%string) ∧
  ∃ new,
    issued (app relogio escolha loja_petr4).2 = issued loja_petr4 ++ new ∧
    ∀ q, q ∈ new →
      sql_text q = get_date_bounds_sql ∨
      sql_text q = lista_tickers_sql ∨
      (sql_text q ∈ [load_data_sql "D"; load_data_sql "W"; load_data_sql "M"] ∧
       sql_params q = [("t", PStr (ticker escolha)); ("ini", PDate (data_ini escolha));
                       ("fim", PDate (data_fim escolha))]%string).
Proof.
  apply (freq_from_closed_set relogio escolha loja_petr4).
  unfold freq_options, escolha. simpl. right. left.
Defined.

(** The three texts differ from one another and from the catalog texts
    only in the unit. *)
Example load_data_sql_W :
  sql_text <$> issued (app relogio escolha loja_petr4).2 =
    [get_date_bounds_sql; lista_tickers_sql; load_data_sql "W"].
Proof. reflexivity. Qed.

(** ** C6 *)

Lemma render_chart_error e w df x :
  build_chart df (ticker w) (freq w) (data_ini w) (data_fim w) = inl x →
  render e w df = inl x.
Proof. intros H. unfold render. by rewrite H. Qed.

Lemma render_ok e w df fig a :
  build_chart df (ticker w) (freq w) (data_ini w) (data_fim w) = inr fig →
  formatar_data_ptbr (now e) = inr a →
  ∃ p, render e w df = inr p ∧ chart p = fig ∧
       caption p = "Fonte: Banco de dados | Atualizado em " +:+ a.
Proof. intros Hf Ha. unfold render. rewrite Hf, Ha. by eexists. Qed.

(** C6: the figure of a run depends on the series and on the ticker, the
    label and the two dates only.  Two runs over the same table with the
    same widget values, at any two clocks and locales of the host and after
    any statements sent before, either raise the same exception or show the
    same figure; the figure is [build_chart] of a series and those four
    values, and only the footer is made from the clock of the run. *)
Theorem chart_independent_of_clock e1 e2 w s1 s2 :
  valid_month (now e1) →
  valid_month (now e2) →
  reachable s1 = reachable s2 →
  cotahist_hist s1 = cotahist_hist s2 →
  match (app e1 w s1).1, (app e2 w s2).1 with
  | inr p1, inr p2 =>
      chart p1 = chart p2 ∧
      (∃ df, build_chart df (ticker w) (freq w) (data_ini w) (data_fim w) =
               inr (chart p1)) ∧
      ∃ a1 a2,
        formatar_data_ptbr (now e1) = inr a1 ∧
        formatar_data_ptbr (now e2) = inr a2 ∧
        caption p1 = "Fonte: Banco de dados | Atualizado em " +:+ a1 ∧
        caption p2 = "Fonte: Banco de dados | Atualizado em " +:+ a2
  | inl x1, inl x2 => x1 = x2
  | _, _ => False
  end.
Proof.
  intros Hn1 Hn2 Hreach Htable.
  destruct (formatar_data_ptbr_valid _ Hn1) as (a1 & _ & Ha1).
  destruct (formatar_data_ptbr_valid _ Hn2) as (a2 & _ & Ha2).
  destruct (reachable s1) eqn:Hr1; symmetry in Hreach.
  2: { by rewrite !app_unreachable by done. }
  rewrite !app_run by done. rewrite <- Htable.
  destruct (default_period _) as [x|[]]; [done|].
  destruct (py_getitem freq_map (freq w)) as [x|f]; [done|]. simpl.
  destruct (select_series _ _ _) as [x|df]; [done|].
  change (inr df ≫= render e1 w) with (render e1 w df).
  change (inr df ≫= render e2 w) with (render e2 w df).
  destruct (build_chart df (ticker w) (freq w) (data_ini w) (data_fim w))
    as [x|fig] eqn:Hfig.
  { by rewrite !(render_chart_error _ _ _ x). }
  destruct (render_ok e1 w df fig _ Hfig Ha1) as (p1 & -> & Hc1 & Hcap1).
  destruct (render_ok e2 w df fig _ Hfig Ha2) as (p2 & -> & Hc2 & Hcap2).
  split; [congruence|]. split.
  - exists df. by rewrite Hc1.
  - by eexists _, _.
Qed.

Lemma chart_independent_of_clock_witness :
  match (app relogio escolha loja_petr4).1,
        (app relogio' escolha
             (send {| sql_text := lista_tickers_sql; sql_params := [] |} loja_petr4)).1 with
  | inr p1, inr p2 =>
      chart p1 = chart p2 ∧
      (∃ df, build_chart df (ticker escolha) (freq escolha) (data_ini escolha)
               (data_fim escolha) = inr (chart p1)) ∧
      ∃ a1 a2,
        formatar_data_ptbr (now relogio) = inr a1 ∧
        formatar_data_ptbr (now relogio') = inr a2 ∧
        caption p1 = "Fonte: Banco de dados | Atualizado em " +:+ a1 ∧
        caption p2 = "Fonte: Banco de dados | Atualizado em " +:+ a2
  | inl x1, inl x2 => x1 = x2
  | _, _ => False
  end.
Proof.
  apply (chart_independent_of_clock relogio relogio' escolha loja_petr4
           (send {| sql_text := lista_tickers_sql; sql_params := [] |} loja_petr4)).
  - unfold valid_month; simpl; lia.
  - unfold valid_month; simpl; lia.
  - reflexivity.
  - reflexivity.
Defined.

(** The footers of the two example runs differ; their figures do not. *)
Example example_run_pages :
  (∃ p1 p2,
     (app relogio escolha loja_petr4).1 = inr p1 ∧
     (app relogio' escolha loja_petr4).1 = inr p2 ∧
     caption p1 = "Fonte: Banco de dados | Atualizado em 16, Julho, 2025"%string ∧
     caption p2 = "Fonte: Banco de dados | Atualizado em 3, Novembro, 2026"%string ∧
     title (fig_layout (chart p1)) =
       Some "PETR4 | Semanal | 1, Janeiro, 2024 - 31, Janeiro, 2024"%string).
Proof. eexists _, _. repeat split. Qed.

(** ** C3 *)

Lemma StronglySorted_strict (l : list date) :
  StronglySorted date_le l → NoDup l → StronglySorted date_lt l.
Proof.
  induction 1 as [|x l Hl IH Hall]; intros Hnd; [constructor|].
  apply NoDup_cons in Hnd as [Hx Hnd]. constructor; [by apply IH|].
  apply Forall_forall. intros y Hy.
  apply date_le_ne_lt; [by eapply Forall_forall in Hall|].
  by intros ->.
Qed.

Lemma fmap_aggregate_keys u hits (ks : list date) :
  df_data_operacao <$> (aggregate u hits <$> ks) = ks.
Proof. induction ks as [|k ks IH]; [done|]. simpl. f_equal. exact IH. Qed.

(** What [load_data] returns for a unit the server knows: one row for each
    truncated date that occurs among the rows of the ticker in the
    inclusive window, strictly ascending, each with the mean price and the
    summed volume of the rows that truncate to it. *)
Lemma load_data_groups s t ini fim freq u :
  reachable s = true →
  DecodeUnits freq = Some u →
  ∃ df,
    (load_data t ini fim freq s).1 = inr df ∧
    StronglySorted date_lt (df_data_operacao <$> df) ∧
    (∀ k, k ∈ df_data_operacao <$> df ↔
          ∃ r, r ∈ cotahist_hist s ∧ in_window t ini fim r ∧
               date_trunc u (data_operacao r) = k) ∧
    ∀ p, p ∈ df →
      p = aggregate u (filter (in_window t ini fim) (cotahist_hist s))
            (df_data_operacao p).
Proof.
  intros Hr Hu. rewrite load_data_run by done. cbn [fst].
  rewrite (select_series_unit _ u) by done.
  eexists. split; [reflexivity|]. rewrite fmap_aggregate_keys.
  split; [|split].
  - apply StronglySorted_strict.
    + apply (StronglySorted_merge_sort date_le).
    + rewrite merge_sort_Permutation. apply NoDup_remove_dups.
  - intros k. rewrite merge_sort_Permutation, elem_of_remove_dups, list_elem_of_fmap.
    split.
    + intros (r & -> & [Hw Hin]%list_elem_of_filter). by exists r.
    + intros (r & Hin & Hw & <-). exists r. split; [done|].
      by apply list_elem_of_filter.
  - intros p (k & -> & _)%list_elem_of_fmap. reflexivity.
Qed.

Lemma SUM_nonneg (l : list Z) : Forall (λ v, 0 ≤ v) l → 0 ≤ SUM l.
Proof. induction 1 as [|v l Hv _ IH]; simpl; lia. Qed.

(** Volumes that are not negative in the table sum to volumes that are not
    negative in the series. *)
Lemma load_data_volume_nonneg s t ini fim freq u df :
  reachable s = true →
  DecodeUnits freq = Some u →
  (∀ r, r ∈ cotahist_hist s → 0 ≤ volume r) →
  (load_data t ini fim freq s).1 = inr df →
  ∀ p, p ∈ df → 0 ≤ df_volume p.
Proof.
  intros Hr Hu Hvol Hdf p Hp.
  destruct (load_data_groups s t ini fim freq u Hr Hu) as (df' & Hdf' & _ & _ & Hagg).
  rewrite Hdf in Hdf'. injection Hdf' as <-.
  rewrite (Hagg p Hp). simpl. apply SUM_nonneg.
  apply Forall_fmap, Forall_forall. intros r [_ Hin]%list_elem_of_filter.
  apply list_elem_of_filter in Hin as [_ Hin]. by apply Hvol.
Qed.

(** For the daily and the weekly granularity the series of [load_data] is
    the series of the specification. *)
Lemma load_data_refines_spec_day_week s t ini fim g f :
  reachable s = true →
  g ≠ Monthly →
  py_getitem freq_map (granularity_label g) = inr f →
  (load_data t ini fim f s).1 = inr (spec_series g t ini fim (cotahist_hist s)).
Proof.
  intros Hr Hg Hf. rewrite load_data_run by done. simpl.
  destruct g; [| |done].
  - injection Hf as <-. by rewrite (select_series_unit _ Day).
  - injection Hf as <-. by rewrite (select_series_unit _ Week).
Qed.

(** With the unit spelled [month] the series of [load_data] would be the
    monthly series of the specification. *)
Lemma load_data_month_refines_spec s t ini fim :
  reachable s = true →
  (load_data t ini fim "month" s).1 =
    inr (spec_series Monthly t ini fim (cotahist_hist s)).
Proof.
  intros Hr. rewrite load_data_run by done. simpl.
  by rewrite (select_series_unit _ Month).
Qed.

(** C3, at the monthly granularity: the radio label [Mensal] is mapped to
    [M], which DATE_TRUNC reads as the minute.  For the two PETR4 rows of 2
    and 3 January 2024 and the window of January 2024 the specification has
    one bucket, starting 1 January, with volume 200; [load_data] returns
    two buckets, starting 2 and 3 January, with volume 100 each. *)
Theorem load_data_mensal_buckets_by_day :
  py_getitem freq_map (granularity_label Monthly) = inr "M"%string ∧
  DecodeUnits "M" = Some Minute ∧
  date_le janeiro_ini janeiro_fim ∧
  df_data_operacao <$>
    spec_series Monthly "PETR4" janeiro_ini janeiro_fim (cotahist_hist loja_petr4) =
    [mkdate 2024 1 1] ∧
  df_volume <$>
    spec_series Monthly "PETR4" janeiro_ini janeiro_fim (cotahist_hist loja_petr4) =
    [200] ∧
  ∃ df,
    (load_data "PETR4" janeiro_ini janeiro_fim "M" loja_petr4).1 = inr df ∧
    df_data_operacao <$> df = [mkdate 2024 1 2; mkdate 2024 1 3] ∧
    df_volume <$> df = [100; 100].
Proof.
  split; [reflexivity|]. split; [reflexivity|].
  split; [unfold date_le, date_lt; simpl; lia|].
  split; [reflexivity|]. split; [reflexivity|].
  eexists. split; [reflexivity|]. split; reflexivity.
Qed.

(** The weekly scenario of the specification: 31 daily rows of January
    2024, each with price 30 and volume 100, give five weekly buckets that
    start on the Mondays 1, 8, 15, 22 and 29 January, with volume 100 for
    each of their days and mean price 30. *)
Example weekly_scenario :
  ∃ df,
    (load_data "PETR4" janeiro_ini janeiro_fim "W"
       {| reachable := true;
          cotahist_hist :=
            (λ d, mkrow "PETR4" (mkdate 2024 1 (Z.of_nat d)) (Qc_of_Z 30) 100)
              <$> seq 1 31;
          issued := [] |}).1 = inr df ∧
    df_data_operacao <$> df =
      [mkdate 2024 1 1; mkdate 2024 1 8; mkdate 2024 1 15; mkdate 2024 1 22;
       mkdate 2024 1 29] ∧
    df_volume <$> df = [700; 700; 700; 700; 300] ∧
    (λ p, this (df_preco p)) <$> df = [30 # 1; 30 # 1; 30 # 1; 30 # 1; 30 # 1]%Q.
Proof. eexists. split; [reflexivity|]. repeat split; vm_compute; reflexivity. Qed.

(* ================================================================== *)
(** * Further properties of the series query *)

(** Summing a quantity group by group over keys that are all different and
    cover the rows is summing it over the rows. *)
Lemma SUM_cons (v : Z) (l : list Z) : SUM (v :: l) = v + SUM l.
Proof. reflexivity. Qed.

Lemma SUM_zero {A} (l : list A) : SUM ((λ _, 0) <$> l) = 0.
Proof. induction l as [|a l IH]; [done|]. by rewrite fmap_cons, SUM_cons, IH. Qed.

Lemma SUM_indicator (ks : list date) (k0 : date) (v : Z) :
  NoDup ks → k0 ∈ ks →
  SUM ((λ k, if decide (k0 = k) then v else 0) <$> ks) = v.
Proof.
  induction 1 as [|k ks Hk Hnd IH]; [by intros ?%elem_of_nil|].
  rewrite fmap_cons, SUM_cons. intros [->|Hin]%elem_of_cons.
  - rewrite decide_True by done.
    rewrite (list_fmap_ext _ (λ _, 0) ks), SUM_zero; [lia|].
    intros _ k' Hk'%list_elem_of_lookup_2.
    rewrite decide_False; [done|]. by intros ->.
  - rewrite decide_False by (intros ->; done). by rewrite IH.
Qed.

Lemma SUM_pointwise_add {A} (f g : A → Z) (l : list A) :
  SUM ((λ a, f a + g a) <$> l) = SUM (f <$> l) + SUM (g <$> l).
Proof.
  induction l as [|a l IH]; [done|]. rewrite !fmap_cons, !SUM_cons, IH. lia.
Qed.

Lemma SUM_by_group (key : row → date) (f : row → Z) (hits : list row) (ks : list date) :
  NoDup ks →
  (∀ r, r ∈ hits → key r ∈ ks) →
  SUM ((λ k, SUM (f <$> filter (λ r, key r = k) hits)) <$> ks) = SUM (f <$> hits).
Proof.
  intros Hnd. induction hits as [|r hits IH]; intros Hcover.
  - apply (SUM_zero ks).
  - transitivity
      (SUM ((λ k, (if decide (key r = k) then f r else 0) +
                  SUM (f <$> filter (λ r, key r = k) hits)) <$> ks)).
    { f_equal. apply list_fmap_ext. intros _ k _.
      rewrite filter_cons. destruct (decide (key r = k)); [|done].
      by rewrite fmap_cons, SUM_cons. }
    rewrite SUM_pointwise_add, SUM_indicator by (try apply Hcover; done || left).
    rewrite IH by (intros r' Hr'; apply Hcover; by right). done.
Qed.

Lemma fmap_aggregate_volume u hits (ks : list date) :
  df_volume <$> (aggregate u hits <$> ks) =
  (λ k, SUM (volume <$> filter (λ r, date_trunc u (data_operacao r) = k) hits)) <$> ks.
Proof. induction ks as [|k ks IH]; [done|]. simpl. f_equal. exact IH. Qed.

Lemma series_keys_NoDup u (hits : list row) :
  NoDup (merge_sort date_le
           (remove_dups ((λ r, date_trunc u (data_operacao r)) <$> hits))).
Proof. rewrite merge_sort_Permutation. apply NoDup_remove_dups. Qed.

Lemma series_keys_cover u (hits : list row) r :
  r ∈ hits →
  date_trunc u (data_operacao r) ∈
    merge_sort date_le
      (remove_dups ((λ r, date_trunc u (data_operacao r)) <$> hits)).
Proof.
  intros Hr. rewrite merge_sort_Permutation, elem_of_remove_dups.
  by apply (list_elem_of_fmap_2 (λ r, date_trunc u (data_operacao r))).
Qed.

Lemma series_volume_conserved u (hits : list row) :
  SUM (df_volume <$>
         (aggregate u hits <$>
            merge_sort date_le
              (remove_dups ((λ r, date_trunc u (data_operacao r)) <$> hits)))) =
  SUM (volume <$> hits).
Proof.
  rewrite fmap_aggregate_volume.
  apply (SUM_by_group (λ r, date_trunc u (data_operacao r)) volume).
  - apply series_keys_NoDup.
  - intros r Hin. by apply series_keys_cover.
Qed.

Lemma DecodeUnits_page_units freq :
  freq ∈ ["D"; "W"; "M"]%string → ∃ u, DecodeUnits freq = Some u.
Proof.
  rewrite !elem_of_cons, elem_of_nil. intros [->|[->|[->|[]]]]; by eexists.
Qed.

Lemma SUM_filter_bounds {A} (f : A → Z) (P : A → Prop) `{∀ a, Decision (P a)}
    (l : list A) :
  Forall (λ a, 0 ≤ f a) l → 0 ≤ SUM (f <$> filter P l) ≤ SUM (f <$> l).
Proof.
  induction 1 as [|a l Ha _ IH]; [done|].
  rewrite filter_cons. destruct (decide (P a));
    rewrite ?fmap_cons, ?SUM_cons; lia.
Qed.

(** The volumes of the series are sums over parts of the window: when no
    volume in the window is negative, each lies between zero and the volume
    of the whole window. *)
Lemma series_volume_bounds u (hits : list row) :
  Forall (λ r, 0 ≤ volume r) hits →
  Forall (λ p, 0 ≤ df_volume p ≤ SUM (volume <$> hits))
    (aggregate u hits <$>
       merge_sort date_le
         (remove_dups ((λ r, date_trunc u (data_operacao r)) <$> hits))).
Proof.
  intros Hvol. apply Forall_fmap, Forall_forall. intros k _.
  cbn [df_volume aggregate compose]. by apply SUM_filter_bounds.
Qed.

(** X1: with [D], [W] or [M], when no volume of the ticker in the window is
    negative and these volumes add up to at most 2^53, every volume of the
    series lies between 0 and 2^53, where the float64 column of the data
    frame holds integers exactly, and the volumes of the series add up to
    the volumes of the rows of the ticker in the window: grouping loses no
    row and counts none twice. *)
Theorem load_data_volume_conserved s t ini fim freq :
  reachable s = true →
  freq ∈ ["D"; "W"; "M"]%string →
  (∀ r, r ∈ cotahist_hist s → in_window t ini fim r → 0 ≤ volume r) →
  SUM (volume <$> filter (in_window t ini fim) (cotahist_hist s)) ≤ 2 ^ 53 →
  ∃ df,
    (load_data t ini fim freq s).1 = inr df ∧
    Forall (λ p, 0 ≤ df_volume p ≤ 2 ^ 53) df ∧
    SUM (df_volume <$> df) =
      SUM (volume <$> filter (in_window t ini fim) (cotahist_hist s)).
Proof.
  intros Hr [u Hu]%DecodeUnits_page_units Hvol Hsum.
  rewrite load_data_run by done. cbn [fst].
  rewrite (select_series_unit _ u) by done.
  eexists. split; [reflexivity|]. split; [|apply series_volume_conserved].
  eapply Forall_impl.
  - apply series_volume_bounds, Forall_forall.
    intros r [Hw Hin]%list_elem_of_filter. by apply Hvol.
  - intros p [H0 Hle]. cbn beta. lia.
Qed.

Lemma load_data_volume_conserved_witness :
  ∃ df,
    (load_data "PETR4" janeiro_ini janeiro_fim "W" loja_petr4).1 = inr df ∧
    Forall (λ p, 0 ≤ df_volume p ≤ 2 ^ 53) df ∧
    SUM (df_volume <$> df) =
      SUM (volume <$> filter (in_window "PETR4" janeiro_ini janeiro_fim)
                        (cotahist_hist loja_petr4)).
Proof.
  apply (load_data_volume_conserved loja_petr4 "PETR4" janeiro_ini janeiro_fim "W").
  - reflexivity.
  - right. left.
  - intros r. unfold loja_petr4. simpl. rewrite !elem_of_cons, elem_of_nil.
    intros [->|[->|[->|[->|[]]]]] _; simpl; lia.
  - vm_compute. discriminate.
Defined.

Lemma length_remove_dups_le `{EqDecision A} (l : list A) :
  (length (remove_dups l) ≤ length l)%nat.
Proof.
  induction l as [|x l IH]; [done|]. simpl.
  destruct (decide_rel elem_of x l); simpl; lia.
Qed.

(** X2: the series has at most as many rows as the window has rows of the
    ticker, it is empty exactly when the window has none, and each of its
    rows stands for at least one row of the window. *)
Theorem load_data_row_count s t ini fim freq u :
  reachable s = true →
  DecodeUnits freq = Some u →
  ∃ df,
    (load_data t ini fim freq s).1 = inr df ∧
    (length df ≤ length (filter (in_window t ini fim) (cotahist_hist s)))%nat ∧
    (df = [] ↔ filter (in_window t ini fim) (cotahist_hist s) = []) ∧
    ∀ p, p ∈ df →
      ∃ r, r ∈ cotahist_hist s ∧ in_window t ini fim r ∧
           date_trunc u (data_operacao r) = df_data_operacao p.
Proof.
  intros Hr Hu. rewrite load_data_run by done. cbn [fst].
  rewrite (select_series_unit _ u) by done.
  set (hits := filter (in_window t ini fim) (cotahist_hist s)).
  eexists. split; [reflexivity|]. split; [|split].
  - rewrite length_fmap, merge_sort_Permutation.
    etrans; [apply length_remove_dups_le|]. by rewrite length_fmap.
  - split.
    + intros Hnil. destruct hits as [|r hits'] eqn:Hh; [done|].
      apply fmap_nil_inv in Hnil.
      pose proof (series_keys_cover u (r :: hits') r) as Hin.
      rewrite Hnil in Hin. by destruct (proj1 (elem_of_nil _) (Hin ltac:(left))).
    + by intros ->.
  - intros p (k & -> & Hk)%list_elem_of_fmap. simpl.
    rewrite merge_sort_Permutation, elem_of_remove_dups in Hk.
    apply list_elem_of_fmap in Hk as (r & -> & [Hw Hin]%list_elem_of_filter).
    by exists r.
Qed.

Lemma load_data_row_count_witness :
  ∃ df,
    (load_data "PETR4" janeiro_ini janeiro_fim "W" loja_petr4).1 = inr df ∧
    (length df ≤ length (filter (in_window "PETR4" janeiro_ini janeiro_fim)
                           (cotahist_hist loja_petr4)))%nat ∧
    (df = [] ↔ filter (in_window "PETR4" janeiro_ini janeiro_fim)
                 (cotahist_hist loja_petr4) = []) ∧
    ∀ p, p ∈ df →
      ∃ r, r ∈ cotahist_hist loja_petr4 ∧
           in_window "PETR4" janeiro_ini janeiro_fim r ∧
           date_trunc Week (data_operacao r) = df_data_operacao p.
Proof.
  apply (load_data_row_count loja_petr4 "PETR4" janeiro_ini janeiro_fim "W" Week);
    reflexivity.
Defined.




(** X4: with the unit string [M], the one [freq_map] holds for the label
    [Mensal], [load_data] returns for every store, ticker and window what
    it returns with [D], series or error; the series has one row for each
    trade date the ticker has in the window, not one for each month. *)
Theorem load_data_M_is_daily s t ini fim :
  (load_data t ini fim "M" s).1 = (load_data t ini fim "D" s).1 ∧
  ∀ df,
    (load_data t ini fim "M" s).1 = inr df →
    length df =
      length (remove_dups
                (data_operacao <$> filter (in_window t ini fim) (cotahist_hist s))).
Proof.
  destruct (reachable s) eqn:Hr.
  - rewrite !load_data_run by done. cbn [fst].
    rewrite (select_series_unit _ Minute), (select_series_unit _ Day) by done.
    split; [reflexivity|].
    intros df [= <-]. by rewrite length_fmap, merge_sort_Permutation.
  - unfold load_data, mbind, M_bind. rewrite !read_sql_unreachable by done.
    split; [done|]. intros df Hdf. discriminate Hdf.
Qed.

(** ** The order of the rows *)

Lemma SUM_Permutation (l1 l2 : list Z) : l1 ≡ₚ l2 → SUM l1 = SUM l2.
Proof.
  induction 1 as [|x l1 l2 _ IH|x y l|l1 l2 l3 _ IH1 _ IH2];
    rewrite ?SUM_cons; lia.
Qed.

Lemma AVG_Permutation (l1 l2 : list Qc) : l1 ≡ₚ l2 → AVG l1 = AVG l2.
Proof.
  intros Hp. unfold AVG. rewrite (Permutation_length Hp). f_equal.
  induction Hp as [|x l1 l2 _ IH|x y l|l1 l2 l3 _ IH1 _ IH2]; cbn [foldr].
  - done.
  - by rewrite IH.
  - by rewrite !Qcplus_assoc, (Qcplus_comm x y).
  - by rewrite IH1.
Qed.

Lemma sorted_keys_Permutation (l1 l2 : list date) :
  l1 ≡ₚ l2 →
  merge_sort date_le (remove_dups l1) = merge_sort date_le (remove_dups l2).
Proof.
  intros Hp. apply (Sorted_unique date_le).
  - apply (Sorted_merge_sort date_le).
  - apply (Sorted_merge_sort date_le).
  - rewrite !merge_sort_Permutation.
    apply NoDup_Permutation; try apply NoDup_remove_dups.
    intros k. rewrite !elem_of_remove_dups. by rewrite Hp.
Qed.

Lemma select_series_Permutation freq ps (rows1 rows2 : list row) :
  rows1 ≡ₚ rows2 → select_series freq ps rows1 = select_series freq ps rows2.
Proof.
  intros Hp. unfold select_series.
  destruct (DecodeUnits freq) as [u|]; [|done].
  destruct (bound "t" ps) as [[t|?]|]; try done.
  destruct (bound "ini" ps) as [[?|ini]|]; try done.
  destruct (bound "fim" ps) as [[?|fim]|]; try done.
  f_equal.
  assert (filter (in_window t ini fim) rows1 ≡ₚ filter (in_window t ini fim) rows2)
    as Hhits by (by rewrite Hp).
  rewrite (sorted_keys_Permutation _ _ (fmap_Permutation _ _ _ Hhits)).
  apply list_fmap_ext. intros _ k _. unfold aggregate. f_equal.
  - apply AVG_Permutation. by rewrite Hhits.
  - apply SUM_Permutation. by rewrite Hhits.
Qed.

(** X5: the series does not depend on the order in which the table holds
    its rows: two reachable stores whose tables are permutations of each
    other give the same result for the same call, series or error. *)
Theorem load_data_row_order_irrelevant s1 s2 t ini fim freq :
  reachable s1 = true →
  reachable s2 = true →
  cotahist_hist s1 ≡ₚ cotahist_hist s2 →
  (load_data t ini fim freq s1).1 = (load_data t ini fim freq s2).1.
Proof.
  intros Hr1 Hr2 Hp. rewrite !load_data_run by done. cbn [fst].
  by apply select_series_Permutation.
Qed.

Lemma load_data_row_order_irrelevant_witness :
  (load_data "PETR4" janeiro_ini janeiro_fim "W" loja_petr4).1 =
  (load_data "PETR4" janeiro_ini janeiro_fim "W"
     {| reachable := true;
        cotahist_hist := reverse (cotahist_hist loja_petr4);
        issued := [] |}).1.
Proof.
  apply load_data_row_order_irrelevant.
  - reflexivity.
  - reflexivity.
  - simpl. by rewrite reverse_Permutation.
Defined.

(* ================================================================== *)
(** * Further properties of the catalog queries *)

Global Instance ticker_le_antisym : AntiSymm (=) ticker_le.
Proof.
  intros [x|] [y|]; simpl; try done.
  intros H1 H2. f_equal. by apply (anti_symm String.le).
Qed.

Lemma elem_of_select_tickers_codes rows o :
  o ∈ select_tickers rows ↔
  ∃ c, c ∈ codneg <$> rows ∧ matches_ticker c = true ∧ o = regexp_match_ticker c.
Proof.
  unfold select_tickers. rewrite merge_sort_Permutation, elem_of_remove_dups.
  rewrite list_elem_of_fmap. split.
  - intros (r & -> & [Hm Hr]%list_elem_of_filter).
    exists (codneg r). split; [by apply list_elem_of_fmap_2|done].
  - intros (c & (r & -> & Hr)%list_elem_of_fmap & Hm & ->).
    exists r. split; [done|]. by apply list_elem_of_filter.
Qed.

(** X6: the list of tickers depends on the set of raw codes of the table
    only, not on how often or in which order they occur: two reachable
    stores with the same raw codes give the same list. *)
Theorem lista_tickers_depends_on_codes_only s1 s2 :
  reachable s1 = true →
  reachable s2 = true →
  (∀ c, c ∈ codneg <$> cotahist_hist s1 ↔ c ∈ codneg <$> cotahist_hist s2) →
  (lista_tickers s1).1 = (lista_tickers s2).1.
Proof.
  intros Hr1 Hr2 Hcodes. rewrite !lista_tickers_run by done. cbn [fst].
  do 3 f_equal. apply (Sorted_unique ticker_le).
  - apply (Sorted_merge_sort ticker_le).
  - apply (Sorted_merge_sort ticker_le).
  - apply NoDup_Permutation.
    + unfold select_tickers. rewrite merge_sort_Permutation. apply NoDup_remove_dups.
    + unfold select_tickers. rewrite merge_sort_Permutation. apply NoDup_remove_dups.
    + intros o. rewrite !elem_of_select_tickers_codes.
      split; intros (c & Hc & Hm); exists c; (split; [by apply Hcodes|done]).
Qed.

Lemma lista_tickers_depends_on_codes_only_witness :
  (lista_tickers loja_petr4).1 =
  (lista_tickers
     {| reachable := true;
        cotahist_hist :=
          [ mkrow "ITUB4" (mkdate 2020 5 5) (Qc_of_Z 1) 1;
            mkrow "PETR4F" (mkdate 2021 6 6) (Qc_of_Z 2) 2;
            mkrow "PETR4" (mkdate 2022 7 7) (Qc_of_Z 3) 3 ];
        issued := [] |}).1.
Proof.
  apply lista_tickers_depends_on_codes_only.
  - reflexivity.
  - reflexivity.
  - intros c. unfold loja_petr4. simpl.
    rewrite !elem_of_cons, !elem_of_nil. tauto.
Defined.

(** X7: the select box offers a base symbol as soon as one raw code starts
    with it, while [load_data] compares the whole raw code.  For a base
    symbol that only longer raw codes carry, the symbol is in the list of
    [lista_tickers] and its series is empty for every window and unit. *)
Theorem listed_ticker_without_exact_code s x ini fim freq u :
  reachable s = true →
  DecodeUnits freq = Some u →
  (∃ r, r ∈ cotahist_hist s ∧ ticker_prefix x (codneg r)) →
  (∀ r, r ∈ cotahist_hist s → codneg r ≠ x) →
  (∃ l, (lista_tickers s).1 = inr l ∧ x ∈ l) ∧
  (load_data x ini fim freq (lista_tickers s).2).1 = inr [].
Proof.
  intros Hr Hu Hprefix Hexact. rewrite lista_tickers_run by done. cbn [fst snd].
  split.
  - destruct (Forall_is_Some_fmap _ (select_tickers_not_null (cotahist_hist s)))
      as [l Hl].
    assert (NoDup l) as Hnd.
    { apply (NoDup_fmap (Some : string → option string)). rewrite <- Hl.
      unfold select_tickers. rewrite merge_sort_Permutation.
      apply NoDup_remove_dups. }
    exists l. rewrite Hl, dropna_Some, unique_NoDup by done. split; [done|].
    apply (list_elem_of_fmap_inj (Some : string → option string)).
    rewrite <- Hl. by apply elem_of_select_tickers.
  - rewrite load_data_run by done. cbn [fst].
    rewrite (select_series_unit _ u) by done.
    rewrite filter_none; [done|].
    intros r Hin [Hc _]. by apply (Hexact r).
Qed.

Lemma listed_ticker_without_exact_code_witness :
  (∃ l, (lista_tickers loja_petr4f).1 = inr l ∧ "PETR4"%string ∈ l) ∧
  (load_data "PETR4" janeiro_ini janeiro_fim "D" (lista_tickers loja_petr4f).2).1 =
    inr [].
Proof.
  apply (listed_ticker_without_exact_code loja_petr4f "PETR4" janeiro_ini
           janeiro_fim "D" Day).
  - reflexivity.
  - reflexivity.
  - eexists. split; [left|]. unfold ticker_prefix. simpl.
    by eexists _, _, _, _, _, _.
  - intros r ->%list_elem_of_singleton. discriminate.
Defined.

Lemma filter_ext_in {A} (P Q : A → Prop) `{∀ x, Decision (P x)} `{∀ x, Decision (Q x)}
    (l : list A) :
  (∀ x, x ∈ l → P x ↔ Q x) → filter P l = filter Q l.
Proof.
  induction l as [|x l IH]; intros Hl; [done|].
  rewrite !filter_cons.
  rewrite IH by (intros y Hy; apply Hl; by right).
  destruct (decide (P x)) as [HP|HP], (decide (Q x)) as [HQ|HQ]; try done.
  - destruct HQ. apply Hl; [left|done].
  - destruct HP. apply Hl; [left|done].
Qed.

(** X8: the two dates [get_date_bounds] returns, used as the window of
    [load_data] in the store the first call leaves, select every row of
    the ticker.  With [D], [W] or [M], when no volume of the ticker is
    negative and its volumes add up to at most 2^53, every volume of the
    series lies between 0 and 2^53, where the float64 column holds integers
    exactly, and the volumes of the series add up to the volumes of all
    rows of the table with that raw code. *)
Theorem bounds_window_selects_every_row s t freq min_date max_date :
  reachable s = true →
  freq ∈ ["D"; "W"; "M"]%string →
  (∀ r, r ∈ cotahist_hist s → codneg r = t → 0 ≤ volume r) →
  SUM (volume <$> filter (λ r, codneg r = t) (cotahist_hist s)) ≤ 2 ^ 53 →
  (get_date_bounds s).1 = inr (Some min_date, Some max_date) →
  ∃ df,
    (load_data t min_date max_date freq (get_date_bounds s).2).1 = inr df ∧
    Forall (λ p, 0 ≤ df_volume p ≤ 2 ^ 53) df ∧
    SUM (df_volume <$> df) =
      SUM (volume <$> filter (λ r, codneg r = t) (cotahist_hist s)).
Proof.
  intros Hr [u Hu]%DecodeUnits_page_units Hvol Hsum.
  rewrite get_date_bounds_run by done. cbn [fst snd].
  intros [= Hmin Hmax].
  assert (data_operacao <$> cotahist_hist s ≠ []) as Hne.
  { intros Hnil. by rewrite Hnil in Hmin. }
  destruct (sql_min_spec _ Hne) as (mn & Hmn & _ & Hlo).
  destruct (sql_max_spec _ Hne) as (mx & Hmx & _ & Hhi).
  rewrite Hmin in Hmn. injection Hmn as <-.
  rewrite Hmax in Hmx. injection Hmx as <-.
  rewrite load_data_run by done. cbn [fst].
  rewrite (select_series_unit _ u) by done. cbn [cotahist_hist send].
  assert (filter (in_window t min_date max_date) (cotahist_hist s) =
          filter (λ r, codneg r = t) (cotahist_hist s)) as ->.
  { apply filter_ext_in. intros r Hin. unfold in_window. split; [by intros [? _]|].
    intros Hc. split; [done|].
    split; [apply Hlo|apply Hhi]; by apply list_elem_of_fmap_2. }
  eexists. split; [reflexivity|]. split; [|apply series_volume_conserved].
  eapply Forall_impl.
  - apply series_volume_bounds, Forall_forall.
    intros r [Hc Hin]%list_elem_of_filter. by apply Hvol.
  - intros p [H0 Hle]. cbn beta. lia.
Qed.

Lemma bounds_window_selects_every_row_witness :
  ∃ df,
    (load_data "PETR4" (mkdate 2024 1 2) (mkdate 2024 1 3) "W"
       (get_date_bounds loja_petr4).2).1 = inr df ∧
    Forall (λ p, 0 ≤ df_volume p ≤ 2 ^ 53) df ∧
    SUM (df_volume <$> df) =
      SUM (volume <$> filter (λ r, codneg r = "PETR4"%string) (cotahist_hist loja_petr4)).
Proof.
  apply (bounds_window_selects_every_row loja_petr4 "PETR4" "W").
  - reflexivity.
  - right. left.
  - intros r. unfold loja_petr4. simpl. rewrite !elem_of_cons, elem_of_nil.
    intros [->|[->|[->|[->|[]]]]] _; simpl; lia.
  - vm_compute. discriminate.
  - reflexivity.
Defined.

(* ================================================================== *)
(** * Further properties of the page *)

Lemma py_list_index_elem (l : list string) (x : string) :
  x ∈ l →
  ∃ i, py_list_index l x = inr i ∧ l !! i = Some x ∧
       ∀ j, (j < i)%nat → l !! j ≠ Some x.
Proof.
  induction l as [|y l IH]; [by intros ?%elem_of_nil|].
  intros Hin. simpl. destruct (decide (y = x)) as [->|Hne].
  - exists O. split; [done|]. split; [done|]. intros j Hj. lia.
  - apply elem_of_cons in Hin as [->|Hin]; [done|].
    destruct (IH Hin) as (i & -> & Hi & Hfirst).
    exists (S i). split; [done|]. split; [done|].
    intros [|j] Hj; simpl; [by intros [= ->]|]. apply Hfirst. lia.
Qed.

(** X9: the index handed to the select box never raises and is a position
    of the list whenever the list has an entry.  Over the list of
    [lista_tickers] it is the position of PETR4 if a raw code of the table
    starts with PETR4, and otherwise position 0, the least base symbol. *)
Theorem ativo_index_of_lista_tickers s :
  reachable s = true →
  ∃ l i,
    (lista_tickers s).1 = inr l ∧
    ativo_index l = inr i ∧
    (l ≠ [] → (i < length l)%nat) ∧
    ((∃ r, r ∈ cotahist_hist s ∧ ticker_prefix "PETR4" (codneg r)) →
     l !! i = Some "PETR4"%string) ∧
    (¬ (∃ r, r ∈ cotahist_hist s ∧ ticker_prefix "PETR4" (codneg r)) →
     i = O ∧ ∀ x y, l !! i = Some x → y ∈ l → String.le x y).
Proof.
  intros Hr. rewrite lista_tickers_run by done. cbn [fst].
  destruct (Forall_is_Some_fmap _ (select_tickers_not_null (cotahist_hist s)))
    as [l Hl].
  assert (NoDup l) as Hnd.
  { apply (NoDup_fmap (Some : string → option string)). rewrite <- Hl.
    unfold select_tickers. rewrite merge_sort_Permutation.
    apply NoDup_remove_dups. }
  assert (StronglySorted String.le l) as Hsorted.
  { apply StronglySorted_ticker_le. rewrite <- Hl.
    apply (StronglySorted_merge_sort ticker_le). }
  assert (∀ x, x ∈ l ↔ ∃ r, r ∈ cotahist_hist s ∧ ticker_prefix x (codneg r)) as Hmem.
  { intros x. rewrite <- elem_of_select_tickers, Hl.
    by rewrite (list_elem_of_fmap_inj (Some : string → option string)). }
  rewrite Hl, dropna_Some, unique_NoDup by done.
  destruct (decide ("PETR4"%string ∈ l)) as [Hin|Hnin].
  - destruct (py_list_index_elem l "PETR4" Hin) as (i & Hi & Hlook & _).
    exists l, i. split; [done|].
    split; [unfold ativo_index; by rewrite decide_True by done|]. split.
    + intros _. by eapply lookup_lt_Some.
    + split; [done|]. intros Hno. destruct Hno. by apply Hmem.
  - exists l, O. split; [done|].
    split; [unfold ativo_index; by rewrite decide_False by done|]. split.
    + destruct l; [done|]. simpl. lia.
    + split.
      * intros Hyes. destruct Hnin. by apply Hmem.
      * intros _. split; [done|]. intros x y Hx Hy.
        destruct l as [|z l']; [done|]. injection Hx as ->.
        apply StronglySorted_cons in Hsorted as [Hall _].
        apply elem_of_cons in Hy as [->|Hy]; [done|].
        by eapply Forall_forall in Hall.
Qed.

Lemma ativo_index_of_lista_tickers_witness :
  ∃ l i,
    (lista_tickers loja_petr4).1 = inr l ∧
    ativo_index l = inr i ∧
    (l ≠ [] → (i < length l)%nat) ∧
    ((∃ r, r ∈ cotahist_hist loja_petr4 ∧ ticker_prefix "PETR4" (codneg r)) →
     l !! i = Some "PETR4"%string) ∧
    (¬ (∃ r, r ∈ cotahist_hist loja_petr4 ∧ ticker_prefix "PETR4" (codneg r)) →
     i = O ∧ ∀ x y, l !! i = Some x → y ∈ l → String.le x y).
Proof. apply (ativo_index_of_lista_tickers loja_petr4). reflexivity. Defined.

(** Nothing catches the error of an engine that cannot be reached.
    Each of the three queries raises it and sends nothing, and a run of the
    page stops at its first query: no statement is sent and no page is
    produced. *)
Theorem unreachable_store_raises s e w t ini fim freq :
  reachable s = false →
  lista_tickers s = (inl OperationalError, s) ∧
  get_date_bounds s = (inl OperationalError, s) ∧
  load_data t ini fim freq s = (inl OperationalError, s) ∧
  app e w s = (inl OperationalError, s).
Proof.
  intros Hr. split; [|split; [|split]].
  - unfold lista_tickers. apply bind_inl. by apply read_sql_unreachable.
  - unfold get_date_bounds. apply bind_inl. by apply read_sql_unreachable.
  - unfold load_data. apply bind_inl. by apply read_sql_unreachable.
  - by apply app_unreachable.
Qed.

Lemma unreachable_store_raises_witness :
  lista_tickers loja_fora = (inl OperationalError, loja_fora) ∧
  get_date_bounds loja_fora = (inl OperationalError, loja_fora) ∧
  load_data "PETR4" janeiro_ini janeiro_fim "W" loja_fora =
    (inl OperationalError, loja_fora) ∧
  app relogio escolha loja_fora = (inl OperationalError, loja_fora).
Proof. apply (unreachable_store_raises loja_fora). reflexivity. Defined.



Lemma build_chart_inv df t label ini fim fig :
  build_chart df t label ini fim = inr fig → ∃ titulo, fig = chart_of df titulo.
Proof.
  unfold build_chart.
  destruct (formatar_data_ptbr ini) as [x|a]; [discriminate|].
  destruct (formatar_data_ptbr fim) as [x|b]; [discriminate|].
  intros [= <-]. by eexists.
Qed.

Lemma render_inv e w df p :
  render e w df = inr p →
  build_chart df (ticker w) (freq w) (data_ini w) (data_fim w) = inr (chart p) ∧
  toast p = "✅ " +:+ pretty (length df) +:+ " registros carregados".
Proof.
  unfold render.
  destruct (build_chart _ _ _ _ _) as [x|fig]; [discriminate|].
  destruct (formatar_data_ptbr (now e)) as [x|a]; [discriminate|].
  by intros [= <-].
Qed.

Lemma select_series_inv w f rows df :
  select_series f (sql_params (series_statement w f)) rows = inr df →
  ∃ u, DecodeUnits f = Some u ∧
       df_data_operacao <$> df =
         merge_sort date_le
           (remove_dups
              ((λ r, date_trunc u (data_operacao r)) <$>
                 filter (in_window (ticker w) (data_ini w) (data_fim w)) rows)).
Proof.
  unfold select_series. destruct (DecodeUnits f) as [u|]; [|discriminate].
  cbn. intros [= <-]. exists u. split; [done|]. by rewrite fmap_aggregate_keys.
Qed.




(** X12: in the figure of every run that produces a page the line of the
    prices and the bars of the volumes share their x values, the bucket
    starts, which ascend strictly; each trace has as many y values as x
    values, and the toast shows that number. *)
Theorem app_chart_points e w s p :
  (app e w s).1 = inr p →
  ∃ xs ys vs,
    data (chart p) =
      [ (Scattergl xs ys "Preço (R$)" "#1f77b4", false);
        (Bar xs vs "Volume" "lightgray" (Q2Qc (4 # 10)) "legendonly", true) ] ∧
    StronglySorted date_lt xs ∧
    length ys = length xs ∧
    length vs = length xs ∧
    toast p = "✅ " +:+ pretty (length xs) +:+ " registros carregados".
Proof.
  destruct (reachable s) eqn:Hr.
  2: { rewrite app_unreachable by done. discriminate. }
  rewrite app_run by done.
  destruct (default_period _) as [x|[]]; [discriminate|].
  destruct (py_getitem freq_map (freq w)) as [x|f]; [discriminate|]. cbn [fst].
  destruct (select_series _ _ _) as [x|df] eqn:Hsel; [discriminate|].
  change (inr df ≫= render e w) with (render e w df).
  intros [Hfig Htoast]%render_inv.
  apply select_series_inv in Hsel as (u & _ & Hkeys).
  apply build_chart_inv in Hfig as [titulo Hfig].
  exists (df_data_operacao <$> df), (df_preco <$> df), (df_volume <$> df).
  rewrite Hfig. split; [reflexivity|]. split.
  - rewrite Hkeys. apply StronglySorted_strict.
    + apply (StronglySorted_merge_sort date_le).
    + apply series_keys_NoDup.
  - by rewrite !length_fmap.
Qed.

Lemma app_chart_points_witness :
  ∃ p,
    (app relogio escolha loja_petr4).1 = inr p ∧
    ∃ xs ys vs,
      data (chart p) =
        [ (Scattergl xs ys "Preço (R$)" "#1f77b4", false);
          (Bar xs vs "Volume" "lightgray" (Q2Qc (4 # 10)) "legendonly", true) ] ∧
      StronglySorted date_lt xs ∧
      length ys = length xs ∧
      length vs = length xs ∧
      toast p = "✅ " +:+ pretty (length xs) +:+ " registros carregados".
Proof.
  eexists. split; [reflexivity|].
  apply (app_chart_points relogio escolha loja_petr4). reflexivity.
Defined.

(* ================================================================== *)
(** * Further properties of the date formatter *)

(** X13: [formatar_data_ptbr] can raise [IndexError] only, and raises it
    exactly for a month above 12 or below -11.  A month from -11 to 0 does
    not raise: the negative index counts from the end of [meses], so the
    date is formatted with the name of the month twelve later. *)
Theorem formatar_data_ptbr_raises_iff dt :
  (formatar_data_ptbr dt = inl IndexError ↔ month dt < -11 ∨ 12 < month dt) ∧
  (∀ x, formatar_data_ptbr dt = inl x → x = IndexError) ∧
  (-11 ≤ month dt ≤ 0 →
   ∃ mes,
     meses !! Z.to_nat (month dt + 11) = Some mes ∧
     formatar_data_ptbr dt =
       inr (pretty (day dt) +:+ ", " +:+ mes +:+ ", " +:+ pretty (year dt))).
Proof.
  destruct dt as [y m d]. unfold formatar_data_ptbr, py_index.
  change (Z.of_nat (length meses)) with 12. cbn [month day year].
  assert (∀ j, 0 ≤ j →
            (meses !! Z.to_nat j = None ↔ 12 ≤ j)) as Hnone.
  { intros j Hj. rewrite lookup_ge_None. change (length meses) with 12%nat. lia. }
  destruct (decide (m - 1 < 0)) as [Hneg|Hpos].
  - destruct (decide (0 ≤ m - 1 + 12)) as [Hj|Hj].
    + destruct (meses !! Z.to_nat (m - 1 + 12)) as [mes|] eqn:Hlook.
      * split; [split; [discriminate|lia]|]. split; [discriminate|].
        intros _. exists mes. split; [|done].
        by replace (m + 11) with (m - 1 + 12) by lia.
      * apply Hnone in Hlook; [|done]. lia.
    + split; [split; [lia|done]|]. split; [by intros x [= <-]|]. lia.
  - rewrite decide_True by lia.
    destruct (meses !! Z.to_nat (m - 1)) as [mes|] eqn:Hlook.
    + split; [split; [discriminate|]|].
      * intros [?|?]; [lia|].
        assert (meses !! Z.to_nat (m - 1) = None) as Hn by (apply Hnone; lia).
        congruence.
      * split; [discriminate|]. lia.
    + apply Hnone in Hlook; [|lia].
      split; [split; [lia|done]|]. split; [by intros x [= <-]|]. lia.
Qed.

Lemma append_cons (c : ascii) (a r : string) : String c a +:+ r = String c (a +:+ r).
Proof. reflexivity. Qed.

Lemma sem_virgula_pretty_N_go (x : N) (s : string) :
  sem_virgula s → sem_virgula (pretty_N_go x s).
Proof.
  revert s. induction (N.lt_wf_0 x) as [x _ IH]. intros s Hs.
  destruct (decide (x = 0)%N) as [->|Hx]; [by rewrite pretty_N_go_0|].
  rewrite pretty_N_go_step by lia.
  apply IH; [apply N.div_lt; lia|].
  constructor; [|done]. unfold pretty_N_char. by repeat case_match.
Qed.

Lemma sem_virgula_pretty_Z (z : Z) : sem_virgula (pretty z).
Proof.
  assert (∀ x : positive, sem_virgula (pretty x)) as Hpos.
  { intros x. unfold pretty, pretty_positive, pretty, pretty_N.
    rewrite decide_False by done.
    apply sem_virgula_pretty_N_go. constructor. }
  destruct z as [|x|x]; unfold pretty, pretty_Z.
  - by repeat constructor.
  - apply Hpos.
  - rewrite append_cons. constructor; [done|]. apply Hpos.
Qed.

(** Two texts without a comma that are followed by a comma are split from
    what follows in one way only. *)
Lemma split_at_comma (a1 a2 r1 r2 : string) :
  sem_virgula a1 → sem_virgula a2 →
  a1 +:+ String "," r1 = a2 +:+ String "," r2 →
  a1 = a2 ∧ r1 = r2.
Proof.
  revert a2. induction a1 as [|c a1 IH]; intros [|c2 a2] H1 H2 Heq.
  - by injection Heq.
  - rewrite append_cons in Heq. injection Heq as <- _.
    by apply Forall_cons in H2 as [[] _].
  - rewrite append_cons in Heq. injection Heq as -> _.
    by apply Forall_cons in H1 as [[] _].
  - rewrite !append_cons in Heq. injection Heq as <- Heq.
    apply Forall_cons in H1 as [_ H1]. apply Forall_cons in H2 as [_ H2].
    destruct (IH a2 H1 H2 Heq) as [-> ->]. done.
Qed.

Lemma meses_sem_virgula mes : mes ∈ meses → sem_virgula mes.
Proof.
  unfold meses. rewrite !elem_of_cons, elem_of_nil.
  intros H. repeat (destruct H as [->|H]; [by repeat constructor|]). done.
Qed.

(** X14: two calendar dates that [formatar_data_ptbr] formats alike are the
    same date: the text in the title and in the caption determines day,
    month and year. *)
Theorem formatar_data_ptbr_inj d1 d2 :
  valid_month d1 →
  valid_month d2 →
  formatar_data_ptbr d1 = formatar_data_ptbr d2 →
  d1 = d2.
Proof.
  intros Hv1 Hv2.
  destruct (formatar_data_ptbr_valid d1 Hv1) as (m1 & Hm1 & ->).
  destruct (formatar_data_ptbr_valid d2 Hv2) as (m2 & Hm2 & ->).
  intros [= Heq].
  change (", " +:+ ?x) with (String "," (String " " x)) in Heq.
  apply split_at_comma in Heq as [Hday [= Heq]];
    [|apply sem_virgula_pretty_Z..].
  apply split_at_comma in Heq as [Hmes [= Hyear]];
    [|by eapply meses_sem_virgula, list_elem_of_lookup_2..].
  apply (inj pretty) in Hday. apply (inj pretty) in Hyear. subst m2.
  assert (NoDup meses) as Hnd by (refine (bool_decide_unpack _ _); by vm_compute).
  pose proof (NoDup_lookup _ _ _ _ Hnd Hm1 Hm2) as Hidx.
  unfold valid_month in *. destruct d1, d2. simpl in *. f_equal; lia.
Qed.

Lemma formatar_data_ptbr_inj_witness :
  janeiro_ini = mkdate 2024 1 1.
Proof.
  apply (formatar_data_ptbr_inj janeiro_ini (mkdate 2024 1 1)).
  - unfold valid_month; simpl; lia.
  - unfold valid_month; simpl; lia.
  - reflexivity.
Defined.

(* ================================================================== *)
(** * The buckets of the series *)

(** X16: over a table in which no volume is negative, no row of the series
    has a negative volume. *)
Theorem load_data_volumes_not_negative s t ini fim freq u :
  reachable s = true →
  DecodeUnits freq = Some u →
  (∀ r, r ∈ cotahist_hist s → 0 ≤ volume r) →
  ∃ df,
    (load_data t ini fim freq s).1 = inr df ∧
    Forall (λ p, 0 ≤ df_volume p) df.
Proof.
  intros Hr Hu Hvol.
  destruct (load_data_groups s t ini fim freq u Hr Hu) as (df & Hdf & _).
  exists df. split; [done|]. apply Forall_forall. intros p Hp.
  by apply (load_data_volume_nonneg s t ini fim freq u df).
Qed.

Lemma load_data_volumes_not_negative_witness :
  ∃ df,
    (load_data "PETR4" janeiro_ini janeiro_fim "W" loja_petr4).1 = inr df ∧
    Forall (λ p, 0 ≤ df_volume p) df.
Proof.
  apply (load_data_volumes_not_negative loja_petr4 "PETR4" janeiro_ini janeiro_fim
           "W" Week).
  - reflexivity.
  - reflexivity.
  - intros r. unfold loja_petr4. simpl. rewrite !elem_of_cons, elem_of_nil.
    intros [->|[->|[->|[->|[]]]]]; simpl; lia.
Defined.

Lemma filter_only {A} (P : A → Prop) `{∀ x, Decision (P x)} (l : list A) (r : A) :
  NoDup l → r ∈ l → P r → (∀ x, x ∈ l → P x → x = r) → filter P l = [r].
Proof.
  induction 1 as [|y l Hy Hnd IH]; [by intros ?%elem_of_nil|].
  intros Hin HP Honly. rewrite filter_cons.
  apply elem_of_cons in Hin as [->|Hin].
  - rewrite decide_True by done. f_equal. apply filter_none.
    intros x Hx HPx. apply Hy. by rewrite <- (Honly x) by (by right || done).
  - rewrite decide_False.
    + apply IH; [done..|]. intros x Hx. apply Honly. by right.
    + intros HPy. apply Hy. by rewrite (Honly y) by (by left || done).
Qed.

(** X17: when the table holds no row twice and at most one row for a raw
    code and a trade date, the series of [load_data] with [D] has exactly
    one row for each row of the ticker in the window; and when the volumes
    of these rows lie between 0 and 2^53, where the float64 column holds
    integers exactly, the volumes of the series are the volumes of these
    rows. *)
Theorem load_data_daily_one_row_per_day s t ini fim :
  reachable s = true →
  NoDup (cotahist_hist s) →
  (∀ r1 r2, r1 ∈ cotahist_hist s → r2 ∈ cotahist_hist s →
            codneg r1 = codneg r2 → data_operacao r1 = data_operacao r2 → r1 = r2) →
  (∀ r, r ∈ cotahist_hist s → in_window t ini fim r → 0 ≤ volume r ≤ 2 ^ 53) →
  ∃ df,
    (load_data t ini fim "D" s).1 = inr df ∧
    length df = length (filter (in_window t ini fim) (cotahist_hist s)) ∧
    df_volume <$> df ≡ₚ volume <$> filter (in_window t ini fim) (cotahist_hist s).
Proof.
  intros Hr Hnd Hkey _. rewrite load_data_run by done. cbn [fst].
  rewrite (select_series_unit _ Day) by done.
  set (hits := filter (in_window t ini fim) (cotahist_hist s)).
  assert (∀ r1 r2, r1 ∈ hits → r2 ∈ hits →
            data_operacao r1 = data_operacao r2 → r1 = r2) as Hkey'.
  { intros r1 r2 [[Hc1 _] Hin1]%list_elem_of_filter
      [[Hc2 _] Hin2]%list_elem_of_filter Hd.
    apply Hkey; [done..|congruence|done]. }
  assert (NoDup hits) as Hndh by (by apply NoDup_filter).
  assert (∀ r, r ∈ hits →
            df_volume (aggregate Day hits (data_operacao r)) = volume r) as Hagg.
  { intros r Hin. unfold aggregate. cbn [date_trunc df_volume].
    rewrite (filter_only _ hits r); [|done|done|done|].
    - cbn [fmap list_fmap]. unfold SUM. simpl. lia.
    - intros r' Hin' Hd. by apply Hkey'. }
  assert (merge_sort date_le
            (remove_dups ((λ r, date_trunc Day (data_operacao r)) <$> hits)) ≡ₚ
          data_operacao <$> hits) as Hkeys.
  { rewrite merge_sort_Permutation. apply NoDup_Permutation.
    - apply NoDup_remove_dups.
    - by apply NoDup_fmap_2_strong.
    - intros k. by rewrite elem_of_remove_dups. }
  eexists. split; [reflexivity|].
  assert (df_volume <$>
            (aggregate Day hits <$>
               merge_sort date_le
                 (remove_dups ((λ r, date_trunc Day (data_operacao r)) <$> hits))) ≡ₚ
          volume <$> hits) as Hvols.
  { rewrite <- list_fmap_compose, Hkeys, <- list_fmap_compose.
    rewrite (list_fmap_ext _ volume hits); [done|].
    intros _ r Hin%list_elem_of_lookup_2. by apply Hagg. }
  split; [|done].
  apply Permutation_length in Hvols. rewrite !length_fmap in Hvols.
  by rewrite length_fmap.
Qed.

Lemma load_data_daily_one_row_per_day_witness :
  ∃ df,
    (load_data "PETR4" janeiro_ini janeiro_fim "D" loja_petr4).1 = inr df ∧
    length df = length (filter (in_window "PETR4" janeiro_ini janeiro_fim)
                          (cotahist_hist loja_petr4)) ∧
    df_volume <$> df ≡ₚ
      volume <$> filter (in_window "PETR4" janeiro_ini janeiro_fim)
                   (cotahist_hist loja_petr4).
Proof.
  apply (load_data_daily_one_row_per_day loja_petr4 "PETR4" janeiro_ini janeiro_fim).
  - reflexivity.
  - unfold loja_petr4. simpl.
    repeat (apply NoDup_cons_2;
            [rewrite ?not_elem_of_cons; repeat split;
             (discriminate || apply not_elem_of_nil)|]).
    apply NoDup_nil_2.
  - intros r1 r2. unfold loja_petr4. simpl. rewrite !elem_of_cons, !elem_of_nil.
    intros [->|[->|[->|[->|[]]]]] [->|[->|[->|[->|[]]]]]; simpl;
      intros Hc Hd; try done; discriminate.
  - intros r. unfold loja_petr4. simpl. rewrite !elem_of_cons, elem_of_nil.
    intros [->|[->|[->|[->|[]]]]] _; simpl; lia.
Defined.

(** X18: a window of a single day gives, with [D], a series of at most one
    row, and the empty series exactly when the ticker has no row with that
    trade date. *)
Theorem load_data_single_day s t d :
  reachable s = true →
  ∃ df,
    (load_data t d d "D" s).1 = inr df ∧
    (length df ≤ 1)%nat ∧
    (df = [] ↔
     ∀ r, r ∈ cotahist_hist s → ¬ (codneg r = t ∧ data_operacao r = d)).
Proof.
  intros Hr. rewrite load_data_run by done. cbn [fst].
  rewrite (select_series_unit _ Day) by done.
  set (hits := filter (in_window t d d) (cotahist_hist s)).
  set (keys := merge_sort date_le
                 (remove_dups ((λ r, date_trunc Day (data_operacao r)) <$> hits))).
  assert (NoDup keys) as Hnd by apply series_keys_NoDup.
  assert (∀ k, k ∈ keys → k = d) as Hall.
  { intros k. unfold keys. rewrite merge_sort_Permutation, elem_of_remove_dups.
    intros (r & -> & [(_ & H1 & H2) _]%list_elem_of_filter)%list_elem_of_fmap.
    cbn [date_trunc]. by apply (anti_symm date_le). }
  assert (∀ r, in_window t d d r ↔ codneg r = t ∧ data_operacao r = d) as Hwin.
  { intros r. unfold in_window. split.
    - intros (Hc & H1 & H2). split; [done|]. by apply (anti_symm date_le).
    - intros [Hc Hd]. rewrite Hd. by repeat split. }
  eexists. split; [reflexivity|]. split.
  - rewrite length_fmap.
    destruct keys as [|k [|k' keys']]; [simpl; lia..|exfalso].
    assert (k = k') as <-.
    { rewrite (Hall k), (Hall k'); [done|right; left|left]. }
    apply NoDup_cons in Hnd as [Hk _]. apply Hk. left.
  - split.
    + intros Hnil%fmap_nil_inv r Hin Hrow%Hwin.
      assert (r ∈ hits) as Hh by (by apply list_elem_of_filter).
      pose proof (series_keys_cover Day hits r Hh) as Hk.
      fold keys in Hk. rewrite Hnil in Hk. by apply elem_of_nil in Hk.
    + intros Hnone. unfold keys.
      assert (hits = []) as ->; [|done].
      apply filter_none. intros r Hin Hw%Hwin. by apply (Hnone r).
Qed.

Lemma load_data_single_day_witness :
  ∃ df,
    (load_data "PETR4" (mkdate 2024 1 3) (mkdate 2024 1 3) "D" loja_petr4).1 = inr df ∧
    (length df ≤ 1)%nat ∧
    (df = [] ↔
     ∀ r, r ∈ cotahist_hist loja_petr4 →
          ¬ (codneg r = "PETR4"%string ∧ data_operacao r = mkdate 2024 1 3)).
Proof. apply (load_data_single_day loja_petr4). reflexivity. Defined.
